(** * Wear-leveled EEPROM storage (eeprom.c): model and verification

    The development follows the simulated build of eeprom.c (the one
    without F_CPU), where the medium is the array [eeprom] and
    [EEPROM_Read] / [EEPROM_Write] are plain array accesses.

    Conventions of the embedding:
    - a [uint8_t] or [uint16_t] object is a [Z] and every store into one
      writes its wrap-around out ([u8], [u16]); the arguments of a call
      are values of their C type, which the statements say with
      [is_byte] and [group_fits] where it matters;
    - an expression of type [int] (the promoted operands of [+], [-],
      [<], [==]) is an unbounded [Z];
    - the array [eeprom] is a [list Z]; an access outside of it has no
      defined behaviour in C and is the outcome [Fault];
    - every access of the medium is appended to a trace, so that the
      order and the place of the physical reads and writes can be
      stated;
    - the two loops whose exit depends on the data (the [do ... while]
      of the resolver, the loop of the initializer that counts in a
      [uint8_t]) take fuel; running out of it is the outcome
      [OutOfFuel], which carries the state the loop has reached.

    The wear-level factor [EEPROM_WEAR_LEVEL_FACTOR] is a parameter of
    every definition, written [N] in the statements. The AVR build,
    where the medium is the device and [EEPROM_Write] is
    [eeprom_update_byte], is not modelled. *)

From Stdlib Require Import ZArith List Lia Bool Ascii.
From stdpp Require Import base numbers list.
Import ListNotations.

Local Open Scope Z_scope.

(** * The program *)

(** ** Machine integers *)

Definition u8 (z : Z) : Z := z mod 256.
Definition u16 (z : Z) : Z := z mod 65536.

Definition is_byte (z : Z) : Prop := 0 <= z < 256.

(** ** The medium and the outcome of a computation *)

Inductive event : Type :=
| EvRead (address : Z)
| EvWrite (address data : Z).

Record world : Type := World { eeprom : list Z; trace : list event }.

Inductive outcome (A : Type) : Type :=
| Ok (a : A) (w : world)
| Fault
| OutOfFuel (w : world).

Arguments Ok {A} a w.
Arguments Fault {A}.
Arguments OutOfFuel {A} w.

Definition M (A : Type) : Type := world -> outcome A.

Definition ret {A} (a : A) : M A := fun w => Ok a w.

Definition bind {A B} (m : M A) (k : A -> M B) : M B :=
  fun w =>
    match m w with
    | Ok a w' => k a w'
    | Fault => Fault
    | OutOfFuel w' => OutOfFuel w'
    end.

Notation "'let*' x ':=' m 'in' k" := (bind m (fun x => k))
  (at level 10, x name, m at level 100, k at level 200).

(** [uint8_t eeprom[EEPROM_SIMULATED_SIZE] = { [0 ... SIZE - 1] = 0xFF }] *)
Definition blank (EEPROM_SIMULATED_SIZE : nat) : world :=
  World (replicate EEPROM_SIMULATED_SIZE 255) [].

(** [#define EEPROM_Read(address) eeprom[(address)]] *)
Definition EEPROM_Read (address : Z) : M Z :=
  fun w =>
    if address <? 0 then Fault
    else match eeprom w !! Z.to_nat address with
         | Some d => Ok d (World (eeprom w) (trace w ++ [EvRead address]))
         | None => Fault
         end.

(** [#define EEPROM_Write(address, data) eeprom[(address)] = (data)] *)
Definition EEPROM_Write (address data : Z) : M unit :=
  fun w =>
    if (0 <=? address) && (address <? Z.of_nat (length (eeprom w))) then
      Ok tt (World (<[Z.to_nat address := u8 data]> (eeprom w))
                   (trace w ++ [EvWrite address (u8 data)]))
    else Fault.

(** The bounded loop [for (uint16_t i = 0; i < len; ++i) body(i)]. *)
Fixpoint for_upto (count : nat) (i : Z) (body : Z -> M unit) : M unit :=
  match count with
  | O => ret tt
  | S count' => let* _ := body i in for_upto count' (i + 1) body
  end.

(** The caller's buffer is a list; reading byte [i] of [data] outside of
    it is a [Fault]. *)
Definition buffer_get (data : list Z) (i : Z) : M Z :=
  fun w =>
    match data !! Z.to_nat i with
    | Some d => Ok d w
    | None => Fault
    end.

(** ** The dump of the simulated build

    What [printf] writes is the result of the call, as a list of
    characters. *)

(** The conversion [%02X] of a [uint8_t]: two upper-case hexadecimal
    digits. *)
Definition hex_digit (d : Z) : ascii :=
  ascii_of_nat (Z.to_nat (if d <? 10 then 48 + d else 55 + d)).

Definition print_02X (d : Z) : list ascii :=
  [hex_digit (d / 16); hex_digit (d mod 16)].

Definition newline : ascii := ascii_of_nat 10.

(** The line of 47 dashes that opens and closes the dump. *)
Definition dashes : list ascii := replicate 47 "-"%char ++ [newline].

(** The loop [for (uint16_t i = begin; i < end; ++i)] of [EEPROM_Print]:
    cell [i] in hexadecimal and a space, then a newline when [i + 1] is
    a multiple of 16. *)
Fixpoint print_loop (count : nat) (i : Z) : M (list ascii) :=
  match count with
  | O => ret []
  | S count' =>
      let* d := EEPROM_Read i in
      let* rest := print_loop count' (i + 1) in
      ret (print_02X d ++ " "%char :: (if (i + 1) mod 16 =? 0 then [newline] else []) ++ rest)
  end.

Definition EEPROM_Print (begin end_ : Z) : M (list ascii) :=
  let* cells := print_loop (Z.to_nat (end_ - begin)) begin in
  ret (dashes ++ cells ++ dashes).

(** ** Events and cells *)

Definition is_read (e : event) : Prop :=
  match e with EvRead _ => True | EvWrite _ _ => False end.

(** An event that writes, if at all, inside [lo, hi). *)
Definition writes_within (lo hi : Z) (e : event) : Prop :=
  match e with
  | EvRead _ => True
  | EvWrite a _ => lo <= a < hi
  end.

(** An event that is a read inside [lo, hi). *)
Definition reads_within (lo hi : Z) (e : event) : Prop :=
  match e with
  | EvRead a => lo <= a < hi
  | EvWrite _ _ => False
  end.

(** The addresses that a trace reads, in order. *)
Fixpoint read_addresses (evs : list event) : list Z :=
  match evs with
  | [] => []
  | EvRead a :: evs' => a :: read_addresses evs'
  | EvWrite _ _ :: evs' => read_addresses evs'
  end.

(** The addresses that a trace writes, in order. *)
Fixpoint write_addresses (evs : list event) : list Z :=
  match evs with
  | [] => []
  | EvRead _ :: evs' => write_addresses evs'
  | EvWrite a _ :: evs' => a :: write_addresses evs'
  end.

(** The medium after the writes of a trace. *)
Definition apply_event (mem : list Z) (e : event) : list Z :=
  match e with
  | EvRead _ => mem
  | EvWrite a d => <[Z.to_nat a := d]> mem
  end.

Definition replay (evs : list event) (mem : list Z) : list Z :=
  fold_left apply_event evs mem.

(** The content of a cell, for an address inside the array. *)
Definition cell (mem : list Z) (address : Z) : Z :=
  if address <? 0 then 0 else default 0 (mem !! Z.to_nat address).

Definition size (mem : list Z) : Z := Z.of_nat (length mem).

(** Each value of the list differs from the one before it, the first
    from [cur]. *)
Fixpoint changing (cur : Z) (vs : list Z) : Prop :=
  match vs with
  | [] => True
  | v :: vs' => v <> cur /\ changing v vs'
  end.

Section Eeprom.

(** [#define EE_PARAM_BUFFER_SIZE EEPROM_WEAR_LEVEL_FACTOR], and
    [EE_STATUS_BUFFER_SIZE] is the same number. *)
Variable EEPROM_WEAR_LEVEL_FACTOR : Z.

Local Abbreviation EE_PARAM_BUFFER_SIZE := EEPROM_WEAR_LEVEL_FACTOR (only parsing).
Local Abbreviation EE_STATUS_BUFFER_SIZE := EE_PARAM_BUFFER_SIZE (only parsing).

(** ** eeprom.c *)

(** The [do { ... } while (...)] of [EEPROM_FindCurrentAddress]. *)
Fixpoint find_loop (fuel : nat) (EeBufPtr EeBufEnd : Z) : M Z :=
  match fuel with
  | O => fun w => OutOfFuel w
  | S fuel' =>
      let* tmp := EEPROM_Read EeBufPtr in
      let EeBufPtr := u16 (EeBufPtr + 1) in
      if EeBufPtr =? EeBufEnd then ret EeBufPtr
      else
        let* next := EEPROM_Read EeBufPtr in
        if next =? u8 (tmp + 1) then find_loop fuel' EeBufPtr EeBufEnd
        else ret EeBufPtr
  end.

Definition EEPROM_FindCurrentAddress (fuel : nat) (param : Z) : M Z :=
  let EeBufPtr := u16 (param + EE_PARAM_BUFFER_SIZE) in
  let EeBufEnd := u16 (EeBufPtr + EE_STATUS_BUFFER_SIZE) in
  let* EeBufPtr := find_loop fuel EeBufPtr EeBufEnd in
  ret (u16 (EeBufPtr - (EE_PARAM_BUFFER_SIZE + 1))).

(** [for (uint8_t i = 1; i < EE_STATUS_BUFFER_SIZE; ++i)] of
    [EEPROM_InitWearLeveledByte]; [++i] wraps at 256. *)
Fixpoint init_loop (fuel : nat) (i param : Z) : M unit :=
  if i <? EE_STATUS_BUFFER_SIZE then
    match fuel with
    | O => fun w => OutOfFuel w
    | S fuel' =>
        let* _ := EEPROM_Write (i + param + EE_PARAM_BUFFER_SIZE) (i - 1) in
        init_loop fuel' (u8 (i + 1)) param
    end
  else ret tt.

Definition EEPROM_InitWearLeveledByte (fuel : nat) (param data : Z) : M Z :=
  let* _ := EEPROM_Write (param + EE_PARAM_BUFFER_SIZE) (EE_STATUS_BUFFER_SIZE - 1) in
  let* _ := init_loop fuel 1 param in
  let* _ := EEPROM_Write param data in
  ret data.

Definition EEPROM_ReadWearLeveledByte (fuel : nat) (param : Z) : M Z :=
  let* address := EEPROM_FindCurrentAddress fuel param in
  EEPROM_Read address.

Definition EEPROM_WriteWearLeveledByte (fuel : nat) (param data : Z) : M unit :=
  let* address := EEPROM_FindCurrentAddress fuel param in
  let* current := EEPROM_Read address in
  if current =? data then ret tt
  else
    let* oldStatusValue := EEPROM_Read (address + EE_PARAM_BUFFER_SIZE) in
    let address := u16 (address + 1) in
    let address := if address =? param + EE_PARAM_BUFFER_SIZE then param else address in
    let* _ := EEPROM_Write address data in
    EEPROM_Write (address + EE_PARAM_BUFFER_SIZE) (oldStatusValue + 1).

Definition EEPROM_InitWearLeveledBlock (fuel : nat) (param : Z) (data : list Z) (len : Z)
  : M unit :=
  for_upto (Z.to_nat len) 0 (fun i =>
    let* d := buffer_get data i in
    let* _ := EEPROM_InitWearLeveledByte fuel
                (u16 (param + i * (EE_PARAM_BUFFER_SIZE + EE_STATUS_BUFFER_SIZE))) d in
    ret tt).

(** The loop of [EEPROM_ReadWearLeveledBlock]; the bytes stored through
    [data] are returned in index order. *)
Fixpoint read_block_loop (fuel count : nat) (i param : Z) : M (list Z) :=
  match count with
  | O => ret []
  | S count' =>
      let* d := EEPROM_ReadWearLeveledByte fuel
                  (u16 (param + i * (EE_PARAM_BUFFER_SIZE + EE_STATUS_BUFFER_SIZE))) in
      let* rest := read_block_loop fuel count' (i + 1) param in
      ret (d :: rest)
  end.

Definition EEPROM_ReadWearLeveledBlock (fuel : nat) (param len : Z) : M (list Z) :=
  read_block_loop fuel (Z.to_nat len) 0 param.

Definition EEPROM_WriteWearLeveledBlock (fuel : nat) (param : Z) (data : list Z) (len : Z)
  : M unit :=
  for_upto (Z.to_nat len) 0 (fun i =>
    let* d := buffer_get data i in
    EEPROM_WriteWearLeveledByte fuel
      (u16 (param + i * (EE_PARAM_BUFFER_SIZE + EE_STATUS_BUFFER_SIZE))) d).

(** ** Callers

    Sequences of calls on one parameter, as a caller makes them. *)

(** Successive calls of [EEPROM_WriteWearLeveledByte]. *)
Fixpoint updates (fuel : nat) (param : Z) (vs : list Z) : M unit :=
  match vs with
  | [] => ret tt
  | v :: vs' =>
      let* _ := EEPROM_WriteWearLeveledByte fuel param v in
      updates fuel param vs'
  end.

(** The same calls, each followed by [EEPROM_ReadWearLeveledByte]; the
    values read are returned in order. *)
Fixpoint observed_updates (fuel : nat) (param : Z) (vs : list Z) : M (list Z) :=
  match vs with
  | [] => ret []
  | v :: vs' =>
      let* _ := EEPROM_WriteWearLeveledByte fuel param v in
      let* r := EEPROM_ReadWearLeveledByte fuel param in
      let* rs := observed_updates fuel param vs' in
      ret (r :: rs)
  end.

(** [EEPROM_InitWearLeveledByte], a read, and observed updates. *)
Definition session (fuel : nat) (param v0 : Z) (vs : list Z) : M (list Z) :=
  let* _ := EEPROM_InitWearLeveledByte fuel param v0 in
  let* r := EEPROM_ReadWearLeveledByte fuel param in
  let* rs := observed_updates fuel param vs in
  ret (r :: rs).

(** [EEPROM_InitWearLeveledByte] and successive updates. *)
Definition init_then_updates (fuel : nat) (param v0 : Z) (vs : list Z) : M unit :=
  let* _ := EEPROM_InitWearLeveledByte fuel param v0 in
  updates fuel param vs.

(** Updates, then the resolver. *)
Definition active_after (fuel : nat) (param : Z) (vs : list Z) : M Z :=
  let* _ := updates fuel param vs in
  EEPROM_FindCurrentAddress fuel param.

(** * Vocabulary of the specification

    The slot-group of a logical byte based at [param]: data cells
    [param + j] and generation counters [param + N + j], [0 <= j < N]. *)

Definition gen (mem : list Z) (param j : Z) : Z :=
  cell mem (param + EE_PARAM_BUFFER_SIZE + j).

Definition dat (mem : list Z) (param j : Z) : Z :=
  cell mem (param + j).

(** The group lies inside the array and below the end of the 16-bit
    address space. eeprom.h asserts as much at build time for the end
    of the last parameter ([EE_EEPROM_END <= sizeof(eeprom)]); the
    functions themselves do not check it. *)
Definition group_fits (mem : list Z) (param : Z) : Prop :=
  0 <= param /\
  param + 2 * EEPROM_WEAR_LEVEL_FACTOR <= size mem /\
  param + 2 * EEPROM_WEAR_LEVEL_FACTOR <= 65536.

(** The slot-group of byte [i] of a block based at [param]. *)
Definition group_base (param i : Z) : Z :=
  param + i * (EE_PARAM_BUFFER_SIZE + EE_STATUS_BUFFER_SIZE).

Definition in_group (param i a : Z) : Prop :=
  group_base param i <= a < group_base param (i + 1).

(** The [len] groups of a block lie inside the array and below the end
    of the 16-bit address space. *)
Definition block_fits (mem : list Z) (param len : Z) : Prop :=
  0 <= param /\ 0 <= len /\
  group_base param len <= size mem /\
  group_base param len <= 65536.

(** The counter after [j] continues the run:
    [gen[j+1] == (uint8_t)(gen[j] + 1)]. *)
Definition ascending (mem : list Z) (param j : Z) : Prop :=
  gen mem param (j + 1) = u8 (gen mem param j + 1).

(** [k] is the boundary of the run that starts at index 0: the run
    ascends up to [k], and [k] is the last index or the run breaks
    after it. *)
Definition boundary (mem : list Z) (param k : Z) : Prop :=
  0 <= k < EEPROM_WEAR_LEVEL_FACTOR /\
  (forall j, 0 <= j < k -> ascending mem param j) /\
  (k = EEPROM_WEAR_LEVEL_FACTOR - 1 \/ ~ ascending mem param k).

(** The counters form one ascending run with its boundary at [k], and
    no other: the only pair of neighbours that does not ascend, if
    any, is [(k, k+1)]. *)
Definition single_run_at (mem : list Z) (param k : Z) : Prop :=
  boundary mem param k /\
  (forall k', boundary mem param k' -> k' = k) /\
  (forall j, k < j < EEPROM_WEAR_LEVEL_FACTOR - 1 -> ascending mem param j).

Definition single_run (mem : list Z) (param : Z) : Prop :=
  exists k, single_run_at mem param k.

Definition counters_are_bytes (mem : list Z) (param : Z) : Prop :=
  forall j, 0 <= j < EEPROM_WEAR_LEVEL_FACTOR -> is_byte (gen mem param j).

(** The slot after [k] in the ring. *)
Definition next_slot (k : Z) : Z :=
  if k + 1 =? EEPROM_WEAR_LEVEL_FACTOR then 0 else k + 1.

(** The slot that is active after a write of [data] over active slot [k]. *)
Definition slot_after (mem : list Z) (param k data : Z) : Z :=
  if dat mem param k =? data then k else next_slot k.

(** The medium after a write that changes the value: the data cell of
    the next slot, then its counter. *)
Definition written (param : Z) (mem : list Z) (k data : Z) : list Z :=
  <[Z.to_nat (param + next_slot k + EE_PARAM_BUFFER_SIZE) := u8 (gen mem param k + 1)]>
    (<[Z.to_nat (param + next_slot k) := u8 data]> mem).

(** The events of a read, or of a write, of a counter cell of the group. *)
Definition counter_read (param : Z) (e : event) : Prop :=
  exists a, e = EvRead a /\
    param + EE_PARAM_BUFFER_SIZE <= a < param + 2 * EE_PARAM_BUFFER_SIZE.

Definition counter_write (param : Z) (e : event) : Prop :=
  exists a d, e = EvWrite a d /\
    param + EE_PARAM_BUFFER_SIZE <= a < param + 2 * EE_PARAM_BUFFER_SIZE.

(** An event that writes no data cell of the group. *)
Definition no_data_write (param : Z) (e : event) : Prop :=
  match e with
  | EvRead _ => True
  | EvWrite a _ => ~ (param <= a < param + EE_PARAM_BUFFER_SIZE)
  end.

(** The data cell of the group that the trace wrote last, if any. *)
Definition last_data_write (param : Z) (tr : list event) : option Z :=
  fold_left
    (fun acc e =>
       match e with
       | EvWrite a _ =>
           if (param <=? a) && (a <? param + EE_PARAM_BUFFER_SIZE) then Some a else acc
       | EvRead _ => acc
       end)
    tr None.

(** The state of an initialized group whose active slot is [k]. *)
Definition initialized (param k : Z) (w : world) : Prop :=
  group_fits (eeprom w) param /\
  single_run_at (eeprom w) param k /\
  counters_are_bytes (eeprom w) param /\
  last_data_write param (trace w) = Some (param + k).

(** The resolver follows the writes: an initialization and any updates
    after it return, and then [EEPROM_FindCurrentAddress] returns the
    data cell of the group that was written last. *)
Definition resolves_latest_write : Prop :=
  forall param v0 vs mem tr,
    group_fits mem param -> is_byte v0 -> Forall is_byte vs ->
    exists fuel w' a evs,
      init_then_updates fuel param v0 vs (World mem tr) = Ok tt w' /\
      last_data_write param (trace w') = Some a /\
      EEPROM_FindCurrentAddress fuel param w'
      = Ok a (World (eeprom w') (trace w' ++ evs)).

(** An update that changes the value writes the data cell [a] of the
    slot after the active one first and the counter of the same slot
    second; in the state [mid] between the two writes the resolver and
    the read answer as before the update. *)
Definition data_before_counter (fuel : nat) (param data : Z) (mem : list Z) : Prop :=
  forall tr old w0,
    EEPROM_ReadWearLeveledByte fuel param (World mem tr) = Ok old w0 ->
    old <> data ->
    exists pre a g,
      let first := EvWrite a (u8 data) in
      let second := EvWrite (a + EE_PARAM_BUFFER_SIZE) g in
      let mid := World (replay (pre ++ [first]) mem) (tr ++ pre ++ [first]) in
      EEPROM_WriteWearLeveledByte fuel param data (World mem tr)
      = Ok tt (World (replay (pre ++ [first; second]) mem)
                     (tr ++ pre ++ [first; second])) /\
      Forall is_read pre /\
      param <= a < param + EE_PARAM_BUFFER_SIZE /\
      exists slot evs evs' evs'',
        EEPROM_FindCurrentAddress fuel param (World mem tr)
        = Ok slot (World mem (tr ++ evs)) /\
        a = param + next_slot (slot - param) /\
        EEPROM_FindCurrentAddress fuel param mid
        = Ok slot (World (eeprom mid) (trace mid ++ evs')) /\
        EEPROM_ReadWearLeveledByte fuel param mid
        = Ok old (World (eeprom mid) (trace mid ++ evs'')).

(** * Vocabulary of the further properties *)

(** The group based at [param] is initialized and its logical value is
    [v]: the counters are bytes in a single run and the data cell at
    the boundary of the run holds [v]. *)
Definition stores (mem : list Z) (param v : Z) : Prop :=
  group_fits mem param /\
  counters_are_bytes mem param /\
  exists k, single_run_at mem param k /\ dat mem param k = v.

(** The block based at [param] is initialized and its logical bytes are
    [vs]. *)
Definition block_stores (mem : list Z) (param : Z) (vs : list Z) : Prop :=
  forall i v, vs !! i = Some v -> stores mem (group_base param (Z.of_nat i)) v.


(** The cells that [n] updates write, one after the other, when each
    changes the value and slot [k] is active before the first: the data
    cell of the next slot and its counter, round the ring. *)
Fixpoint ring_writes (param k : Z) (n : nat) : list Z :=
  match n with
  | O => []
  | S n' =>
      param + next_slot k
        :: param + next_slot k + EE_PARAM_BUFFER_SIZE
        :: ring_writes param (next_slot k) n'
  end.

(** The accesses of an initialization, in order: every counter once,
    then data cell 0. *)
Definition init_events (param data : Z) : list event :=
  EvWrite (param + EE_PARAM_BUFFER_SIZE) (EE_STATUS_BUFFER_SIZE - 1)
    :: map (fun i => EvWrite (i + param + EE_PARAM_BUFFER_SIZE) (i - 1))
         (seqZ 1 (EE_STATUS_BUFFER_SIZE - 1))
    ++ [EvWrite param (u8 data)].

(** The group of [param] as an erased device leaves it: every cell
    holds 0xFF. *)
Definition erased (mem : list Z) (param : Z) : Prop :=
  forall a, param <= a < param + 2 * EEPROM_WEAR_LEVEL_FACTOR -> cell mem a = 255.

(** An erased group after updates have filled the slots up to [m]: the
    counters of the slots 1 to [m] count from 0, the others are still
    0xFF. *)
Definition erased_run (mem : list Z) (param m : Z) : Prop :=
  0 <= m < EEPROM_WEAR_LEVEL_FACTOR /\
  gen mem param 0 = 255 /\
  (forall j, 1 <= j <= m -> gen mem param j = j - 1) /\
  (forall j, m < j < EEPROM_WEAR_LEVEL_FACTOR -> gen mem param j = 255).

(** Two groups that share no cell. *)
Definition groups_apart (a b : Z) : Prop :=
  a + 2 * EEPROM_WEAR_LEVEL_FACTOR <= b \/ b + 2 * EEPROM_WEAR_LEVEL_FACTOR <= a.

(** Successive calls of [EEPROM_WriteWearLeveledBlock] on one block. *)
Fixpoint block_updates (fuel : nat) (param : Z) (bufs : list (list Z)) (len : Z) : M unit :=
  match bufs with
  | [] => ret tt
  | data :: bufs' =>
      let* _ := EEPROM_WriteWearLeveledBlock fuel param data len in
      block_updates fuel param bufs' len
  end.

(** [EEPROM_InitWearLeveledBlock], successive block writes, and
    [EEPROM_ReadWearLeveledBlock]. *)
Definition block_session (fuel : nat) (param : Z) (data : list Z) (bufs : list (list Z))
    (len : Z) : M (list Z) :=
  let* _ := EEPROM_InitWearLeveledBlock fuel param data len in
  let* _ := block_updates fuel param bufs len in
  EEPROM_ReadWearLeveledBlock fuel param len.

End Eeprom.

(** The calls of [main] in main.c, with [N = 8]; [volume] is at offset
    0 and the three bytes of [settings] (score 0x00FD, level 0x01, in
    memory FD 00 01) at offset 16. The result is the block read back
    at the end. *)
Definition main_c : M (list Z) :=
  let* _ := EEPROM_InitWearLeveledByte 8 8 0 0x40 in
  let* _ := EEPROM_InitWearLeveledBlock 8 8 16 [0xFD; 0x00; 0x01] 3 in
  let* volume := EEPROM_ReadWearLeveledByte 8 8 0 in
  let* _ := EEPROM_ReadWearLeveledBlock 8 8 16 3 in
  let* _ := EEPROM_WriteWearLeveledByte 8 8 0 (u8 (volume + 1)) in
  let* _ := EEPROM_WriteWearLeveledBlock 8 8 16 [0xFE; 0x00; 0x01] 3 in
  let* _ := EEPROM_WriteWearLeveledBlock 8 8 16 [0xFF; 0x00; 0x01] 3 in
  let* _ := EEPROM_WriteWearLeveledBlock 8 8 16 [0x00; 0x01; 0x01] 3 in
  EEPROM_ReadWearLeveledBlock 8 8 16 3.

(** [struct settings_t] of main.c, packed: the two bytes of [score],
    low byte first, then [level]. *)
Definition settings_bytes (score level : Z) : list Z :=
  [u8 score; u8 (score / 256); level].

Definition settings_of (bytes : list Z) : Z * Z :=
  match bytes with
  | [lo; hi; level] => (lo + 256 * hi, level)
  | _ => (0, 0)
  end.

(** [main] of main.c for any wear-level factor, with the layout of its
    macros: [EE_VOLUME] is 0, [EE_SETTINGS] follows the group of
    [volume], and [EE_EEPROM_END], which eeprom.h asserts to be inside
    the array, follows the three groups of [settings]. The result is
    what [volume] and [settings] hold when [main] returns. *)
Definition EE_VOLUME : Z := 0.
Definition EE_SETTINGS (N : Z) : Z := EE_VOLUME + 1 * N * 2.
Definition EE_EEPROM_END (N : Z) : Z := EE_SETTINGS N + 3 * N * 2.

Definition main_program (N : Z) (fuel : nat) : M (Z * (Z * Z)) :=
  let volume := 0x40 in
  let score := 0x00FD in
  let level := 0x01 in
  let* _ := EEPROM_InitWearLeveledByte N fuel EE_VOLUME volume in
  let* _ := EEPROM_InitWearLeveledBlock N fuel (u16 (EE_SETTINGS N))
              (settings_bytes score level) 3 in
  let* volume := EEPROM_ReadWearLeveledByte N fuel EE_VOLUME in
  let* bytes := EEPROM_ReadWearLeveledBlock N fuel (u16 (EE_SETTINGS N)) 3 in
  let score := fst (settings_of bytes) in
  let level := snd (settings_of bytes) in
  let volume := u8 (volume + 1) in
  let* _ := EEPROM_WriteWearLeveledByte N fuel EE_VOLUME volume in
  let score := u16 (score + 1) in
  let* _ := EEPROM_WriteWearLeveledBlock N fuel (u16 (EE_SETTINGS N))
              (settings_bytes score level) 3 in
  let score := u16 (score + 1) in
  let* _ := EEPROM_WriteWearLeveledBlock N fuel (u16 (EE_SETTINGS N))
              (settings_bytes score level) 3 in
  let score := u16 (score + 1) in
  let* _ := EEPROM_WriteWearLeveledBlock N fuel (u16 (EE_SETTINGS N))
              (settings_bytes score level) 3 in
  ret (volume, (score, level)).

(** * Proofs *)

(** ** The model against main.c

    The comments of main.c print the medium after each call; the last
    of them is what the model computes. *)

Example main_c_medium :
  exists w,
    main_c (blank 512) = Ok [0x00; 0x01; 0x01] w /\
    take 64 (eeprom w)
    = [0x40; 0x41; 0xFF; 0xFF; 0xFF; 0xFF; 0xFF; 0xFF;
       0x07; 0x08; 0x01; 0x02; 0x03; 0x04; 0x05; 0x06;
       0xFD; 0xFE; 0xFF; 0x00; 0xFF; 0xFF; 0xFF; 0xFF;
       0x07; 0x08; 0x09; 0x0A; 0x03; 0x04; 0x05; 0x06;
       0x00; 0x01; 0xFF; 0xFF; 0xFF; 0xFF; 0xFF; 0xFF;
       0x07; 0x08; 0x01; 0x02; 0x03; 0x04; 0x05; 0x06;
       0x01; 0xFF; 0xFF; 0xFF; 0xFF; 0xFF; 0xFF; 0xFF;
       0x07; 0x00; 0x01; 0x02; 0x03; 0x04; 0x05; 0x06].
Proof.
  eexists. split; vm_compute; reflexivity.
Qed.

(** Counters seeded at the wrap: the run 254, 255, 0 has its boundary
    at slot 2; an update moves it to slot 3 with counter 1, and the
    next one to slot 0 with counter 2. *)
Example wrap_boundary_resolution :
  let mem := [0x0A; 0x0B; 0x0C; 0x0D; 254; 255; 0; 253] in
  exists w0 w1 w1' w2 w2',
    EEPROM_FindCurrentAddress 4 4 0 (World mem []) = Ok 2 w0 /\
    EEPROM_WriteWearLeveledByte 4 4 0 0x0E (World mem []) = Ok tt w1 /\
    eeprom w1 = [0x0A; 0x0B; 0x0C; 0x0E; 254; 255; 0; 1] /\
    EEPROM_FindCurrentAddress 4 4 0 w1 = Ok 3 w1' /\
    EEPROM_WriteWearLeveledByte 4 4 0 0x0F w1 = Ok tt w2 /\
    eeprom w2 = [0x0F; 0x0B; 0x0C; 0x0E; 2; 255; 0; 1] /\
    EEPROM_FindCurrentAddress 4 4 0 w2 = Ok 0 w2'.
Proof.
  intros mem. do 5 eexists.
  split; [vm_compute; reflexivity|].
  split; [vm_compute; reflexivity|].
  split; [vm_compute; reflexivity|].
  split; [vm_compute; reflexivity|].
  split; [vm_compute; reflexivity|].
  split; vm_compute; reflexivity.
Qed.

(** A group that does not lie inside the array is outside of what the
    program is defined on: here the first counter would be cell 512 of
    512. *)
Example group_outside_array :
  EEPROM_InitWearLeveledByte 8 8 504 0x40 (blank 512) = Fault.
Proof. vm_compute. reflexivity. Qed.

(** ** Basic facts about the machine integers and the medium *)

Lemma u16_small z : 0 <= z < 65536 -> u16 z = z.
Proof. intros H. unfold u16. apply Z.mod_small. exact H. Qed.

Lemma u8_small z : 0 <= z < 256 -> u8 z = z.
Proof. intros H. unfold u8. apply Z.mod_small. exact H. Qed.

Lemma u8_is_byte z : is_byte (u8 z).
Proof. unfold is_byte, u8. apply Z.mod_pos_bound. lia. Qed.

Lemma EEPROM_Read_ok mem tr a :
  0 <= a < size mem ->
  EEPROM_Read a (World mem tr) = Ok (cell mem a) (World mem (tr ++ [EvRead a])).
Proof.
  intros [H0 H1]. unfold EEPROM_Read, cell, size in *. simpl.
  destruct (Z.ltb_spec a 0); [lia|].
  destruct (mem !! Z.to_nat a) eqn:E; [reflexivity|].
  apply lookup_ge_None in E. lia.
Qed.

Lemma EEPROM_Write_ok mem tr a d :
  0 <= a < size mem ->
  EEPROM_Write a d (World mem tr)
  = Ok tt (World (<[Z.to_nat a := u8 d]> mem) (tr ++ [EvWrite a (u8 d)])).
Proof.
  intros [H0 H1]. unfold EEPROM_Write, size in *. simpl.
  destruct (Z.leb_spec 0 a); [|lia].
  destruct (Z.ltb_spec a (Z.of_nat (length mem))); [|lia].
  reflexivity.
Qed.

Lemma size_insert mem n d : size (<[n := d]> mem) = size mem.
Proof. unfold size. rewrite length_insert. reflexivity. Qed.

Lemma cell_insert_eq mem a d :
  0 <= a < size mem -> cell (<[Z.to_nat a := d]> mem) a = d.
Proof.
  intros [H0 H1]. unfold cell, size in *.
  destruct (Z.ltb_spec a 0); [lia|].
  rewrite list_lookup_insert_eq by lia. reflexivity.
Qed.

Lemma cell_insert_ne mem a b d :
  0 <= a -> a <> b -> cell (<[Z.to_nat a := d]> mem) b = cell mem b.
Proof.
  intros Ha Hne. unfold cell.
  destruct (Z.ltb_spec b 0); [reflexivity|].
  rewrite list_lookup_insert_ne by lia. reflexivity.
Qed.

(** ** The resolver *)

Section Resolver.

Variable N : Z.
Hypothesis N_pos : 1 <= N.

Lemma find_loop_spec param mem :
  group_fits N mem param ->
  forall fuel j tr,
    0 <= j < N ->
    (Z.to_nat (N - j) <= fuel)%nat ->
    exists k evs,
      j <= k < N /\
      find_loop fuel (param + N + j) (u16 (param + N + N)) (World mem tr)
      = Ok (u16 (param + N + k + 1)) (World mem (tr ++ evs)) /\
      (forall i, j <= i < k -> ascending N mem param i) /\
      (k = N - 1 \/ ~ ascending N mem param k) /\
      Forall (counter_read N param) evs /\
      Z.of_nat (length evs) <= 2 * (N - j) - 1.
Proof.
  intros (Hp0 & Hsz & H16).
  induction fuel as [|fuel IH]; intros j tr Hj Hfuel; [lia|].
  assert (Hin : 0 <= param + N + j < size mem) by lia.
  cbn [find_loop]. unfold bind at 1. rewrite (EEPROM_Read_ok _ _ _ Hin).
  destruct (Z.eq_dec j (N - 1)) as [->|Hne].
  - replace (param + N + (N - 1) + 1) with (param + N + N) by lia.
    rewrite Z.eqb_refl. unfold ret.
    exists (N - 1), [EvRead (param + N + (N - 1))].
    split_and!; try lia.
    + rewrite <- !Z.add_assoc. replace (N - 1 + 1) with N by lia.
      rewrite Z.add_assoc. reflexivity.
    + constructor; [|constructor]. eexists; split; [reflexivity|lia].
    + simpl. lia.
  - assert (Hnext : u16 (param + N + j + 1) = param + N + j + 1)
      by (apply u16_small; lia).
    assert (Hend : (u16 (param + N + j + 1) =? u16 (param + N + N)) = false).
    { apply Z.eqb_neq. rewrite Hnext. unfold u16.
      destruct (Z.eq_dec (param + N + N) 65536) as [E|E].
      - rewrite E. rewrite Z_mod_same_full. lia.
      - rewrite Z.mod_small by lia. lia. }
    rewrite Hend, Hnext.
    assert (Hin' : 0 <= param + N + j + 1 < size mem) by lia.
    unfold bind at 1. rewrite (EEPROM_Read_ok _ _ _ Hin').
    destruct (Z.eqb_spec (cell mem (param + N + j + 1))
                (u8 (cell mem (param + N + j) + 1))) as [Hasc|Hasc].
    + destruct (IH (j + 1) ((tr ++ [EvRead (param + N + j)]) ++ [EvRead (param + N + j + 1)]))
        as (k & evs & Hk & Hrun & Hasck & Hbnd & Hevs & Hlen); [lia|lia|].
      exists k, ([EvRead (param + N + j); EvRead (param + N + j + 1)] ++ evs).
      replace (param + N + (j + 1)) with (param + N + j + 1) in Hrun by lia.
      rewrite Hrun.
      split_and!; try lia.
      * f_equal. f_equal. rewrite <- !app_assoc. reflexivity.
      * intros i Hi. destruct (Z.eq_dec i j) as [->|Hij].
        -- unfold ascending, gen.
           replace (param + N + (j + 1)) with (param + N + j + 1) by lia.
           exact Hasc.
        -- apply Hasck. lia.
      * exact Hbnd.
      * constructor; [eexists; split; [reflexivity|lia]|].
        constructor; [eexists; split; [reflexivity|lia]|]. exact Hevs.
      * rewrite length_app. simpl length. lia.
    + unfold ret.
      exists j, [EvRead (param + N + j); EvRead (param + N + j + 1)].
      split_and!; try lia.
      * rewrite Hnext, <- app_assoc. reflexivity.
      * right. unfold ascending, gen.
        replace (param + N + (j + 1)) with (param + N + j + 1) by lia.
        exact Hasc.
      * constructor; [eexists; split; [reflexivity|lia]|].
        constructor; [eexists; split; [reflexivity|lia]|]. constructor.
      * simpl. lia.
Qed.

Lemma boundary_unique param mem k k' :
  boundary N mem param k -> boundary N mem param k' -> k = k'.
Proof.
  intros (Hk & Hrun & Hend) (Hk' & Hrun' & Hend').
  destruct (Z.lt_trichotomy k k') as [Hlt|[Heq|Hgt]]; [|exact Heq|].
  - destruct Hend as [->|Hbrk]; [lia|].
    exfalso. apply Hbrk, Hrun'. lia.
  - destruct Hend' as [->|Hbrk]; [lia|].
    exfalso. apply Hbrk, Hrun. lia.
Qed.

Lemma find_spec param mem tr fuel :
  group_fits N mem param ->
  (Z.to_nat N <= fuel)%nat ->
  exists k evs,
    boundary N mem param k /\
    EEPROM_FindCurrentAddress N fuel param (World mem tr)
    = Ok (param + k) (World mem (tr ++ evs)) /\
    Forall (counter_read N param) evs /\
    Z.of_nat (length evs) <= 2 * N - 1.
Proof.
  intros Hfit Hfuel.
  destruct (find_loop_spec param mem Hfit fuel 0 tr) as
    (k & evs & Hk & Hrun & Hasc & Hbnd & Hevs & Hlen); [lia|lia|].
  destruct Hfit as (Hp0 & Hsz & H16).
  exists k, evs. split_and!; try lia; try assumption.
  { split_and!; [lia|lia| |exact Hbnd]. intros j Hj. apply Hasc. lia. }
  unfold EEPROM_FindCurrentAddress.
  rewrite (u16_small (param + N)) by lia.
  rewrite Z.add_0_r in Hrun. unfold bind. rewrite Hrun. unfold ret.
  f_equal. unfold u16.
  destruct (Z.eq_dec (param + N + k + 1) 65536) as [E|E].
  - rewrite E, Z_mod_same_full.
    replace (0 - (N + 1)) with (param + k + (-1) * 65536) by lia.
    rewrite Z_mod_plus_full. apply Z.mod_small. lia.
  - rewrite (Z.mod_small (param + N + k + 1)) by lia.
    replace (param + N + k + 1 - (N + 1)) with (param + k) by lia.
    apply Z.mod_small. lia.
Qed.

Lemma find_at param mem tr fuel k :
  group_fits N mem param ->
  (Z.to_nat N <= fuel)%nat ->
  boundary N mem param k ->
  exists evs,
    EEPROM_FindCurrentAddress N fuel param (World mem tr)
    = Ok (param + k) (World mem (tr ++ evs)) /\
    Forall (counter_read N param) evs /\
    Z.of_nat (length evs) <= 2 * N - 1.
Proof.
  intros Hfit Hfuel Hk.
  destruct (find_spec param mem tr fuel Hfit Hfuel) as (k' & evs & Hk' & Hrun & Hevs).
  rewrite (boundary_unique _ _ _ _ Hk Hk'). exists evs. split; assumption.
Qed.

End Resolver.

(** ** The byte engine: what one call does *)

Section ByteEngine.

Variable N : Z.
Hypothesis N_pos : 1 <= N.

Lemma counter_reads_are_reads param evs :
  Forall (counter_read N param) evs -> Forall is_read evs.
Proof.
  intros H. eapply Forall_impl; [exact H|]. intros e (a & -> & _). exact I.
Qed.

Lemma read_at param mem tr fuel k :
  group_fits N mem param ->
  (Z.to_nat N <= fuel)%nat ->
  boundary N mem param k ->
  exists evs,
    EEPROM_ReadWearLeveledByte N fuel param (World mem tr)
    = Ok (dat mem param k) (World mem (tr ++ evs)) /\
    Forall is_read evs.
Proof.
  intros Hfit Hfuel Hk.
  destruct (find_at N N_pos param mem tr fuel k Hfit Hfuel Hk) as (evs & Hrun & Hevs & _).
  exists (evs ++ [EvRead (param + k)]).
  unfold EEPROM_ReadWearLeveledByte, bind. rewrite Hrun.
  destruct Hfit as (Hp0 & Hsz & H16), Hk as (Hk & _).
  rewrite EEPROM_Read_ok by lia. split.
  - rewrite app_assoc. reflexivity.
  - apply Forall_app. split; [eapply counter_reads_are_reads; eassumption|].
    constructor; [exact I|constructor].
Qed.

Lemma write_same param mem tr fuel k data :
  group_fits N mem param ->
  (Z.to_nat N <= fuel)%nat ->
  boundary N mem param k ->
  dat mem param k = data ->
  exists evs,
    EEPROM_WriteWearLeveledByte N fuel param data (World mem tr)
    = Ok tt (World mem (tr ++ evs)) /\
    Forall is_read evs.
Proof.
  intros Hfit Hfuel Hk Hsame.
  destruct (find_at N N_pos param mem tr fuel k Hfit Hfuel Hk) as (evs & Hrun & Hevs & _).
  exists (evs ++ [EvRead (param + k)]).
  unfold EEPROM_WriteWearLeveledByte, bind. rewrite Hrun.
  destruct Hfit as (Hp0 & Hsz & H16), Hk as (Hk & _).
  rewrite EEPROM_Read_ok by lia.
  unfold dat in Hsame. rewrite Hsame, Z.eqb_refl. unfold ret. split.
  - rewrite app_assoc. reflexivity.
  - apply Forall_app. split; [eapply counter_reads_are_reads; eassumption|].
    constructor; [exact I|constructor].
Qed.

Lemma next_slot_range k : 0 <= k < N -> 0 <= next_slot N k < N.
Proof.
  intros Hk. unfold next_slot. destruct (Z.eqb_spec (k + 1) N); lia.
Qed.

Lemma write_changing param mem tr fuel k data :
  group_fits N mem param ->
  (Z.to_nat N <= fuel)%nat ->
  boundary N mem param k ->
  dat mem param k <> data ->
  exists evs,
    EEPROM_WriteWearLeveledByte N fuel param data (World mem tr)
    = Ok tt (World (written N param mem k data)
               (tr ++ evs ++ [EvWrite (param + next_slot N k) (u8 data);
                              EvWrite (param + next_slot N k + N)
                                      (u8 (gen N mem param k + 1))])) /\
    Forall is_read evs.
Proof.
  intros Hfit Hfuel Hk Hdiff.
  destruct (find_at N N_pos param mem tr fuel k Hfit Hfuel Hk) as (evs & Hrun & Hevs & _).
  exists (evs ++ [EvRead (param + k); EvRead (param + k + N)]).
  unfold EEPROM_WriteWearLeveledByte, bind. rewrite Hrun.
  destruct Hfit as (Hp0 & Hsz & H16), Hk as (Hk & _).
  pose proof (next_slot_range k Hk) as Hn.
  rewrite EEPROM_Read_ok by lia.
  unfold dat in Hdiff. destruct (Z.eqb_spec (cell mem (param + k)) data) as [E|_]; [contradiction|].
  rewrite EEPROM_Read_ok by lia.
  rewrite (u16_small (param + k + 1)) by lia.
  assert (Haddr : (if param + k + 1 =? param + N then param else param + k + 1)
                  = param + next_slot N k).
  { unfold next_slot.
    destruct (Z.eqb_spec (param + k + 1) (param + N)), (Z.eqb_spec (k + 1) N); lia. }
  rewrite Haddr.
  rewrite EEPROM_Write_ok by lia.
  rewrite EEPROM_Write_ok by (rewrite size_insert; lia).
  split.
  - unfold written, gen.
    replace (param + N + k) with (param + k + N) by lia.
    rewrite <- !app_assoc. reflexivity.
  - apply Forall_app. split; [eapply counter_reads_are_reads; eassumption|].
    repeat constructor.
Qed.

End ByteEngine.

(** ** The initializer *)

Section Initializer.

Variable N : Z.
Hypothesis N_pos : 1 <= N.
Hypothesis N_byte : N <= 255.

Lemma init_loop_spec param :
  0 <= param ->
  forall fuel i mem tr,
    1 <= i <= N ->
    param + 2 * N <= size mem ->
    (Z.to_nat (N - i) <= fuel)%nat ->
    exists mem' evs,
      init_loop N fuel i param (World mem tr) = Ok tt (World mem' (tr ++ evs)) /\
      size mem' = size mem /\
      (forall j, i <= j < N -> gen N mem' param j = j - 1) /\
      (forall a, ~ (param + N + i <= a < param + 2 * N) -> cell mem' a = cell mem a) /\
      Forall (counter_write N param) evs /\
      (Forall is_byte mem -> Forall is_byte mem').
Proof.
  intros Hp0.
  induction fuel as [|fuel IH]; intros i mem tr Hi Hsz Hfuel.
  - assert (i = N) as -> by lia.
    exists mem, []. cbn [init_loop]. rewrite Z.ltb_irrefl. unfold ret.
    rewrite app_nil_r. split_and!; try reflexivity; try lia; try constructor; try tauto.
  - cbn [init_loop]. destruct (Z.ltb_spec i N) as [Hlt|Hge].
    + unfold bind at 1. rewrite EEPROM_Write_ok by lia.
      rewrite (u8_small (i + 1)) by lia. rewrite (u8_small (i - 1)) by lia.
      destruct (IH (i + 1) (<[Z.to_nat (i + param + N) := i - 1]> mem)
                  (tr ++ [EvWrite (i + param + N) (i - 1)]))
        as (mem' & evs & Hrun & Hsz' & Hgen & Hframe & Hevs & Hbytes);
        [lia|rewrite size_insert; lia|lia|].
      exists mem', (EvWrite (i + param + N) (i - 1) :: evs).
      rewrite Hrun. split_and!.
      * rewrite <- app_assoc. reflexivity.
      * rewrite Hsz', size_insert. reflexivity.
      * intros j Hj. destruct (Z.eq_dec j i) as [->|Hne].
        -- unfold gen. rewrite Hframe by lia.
           replace (param + N + i) with (i + param + N) by lia.
           apply cell_insert_eq. lia.
        -- apply Hgen. lia.
      * intros a Ha. rewrite Hframe by lia. apply cell_insert_ne; lia.
      * constructor; [|exact Hevs]. eexists _, _. split; [reflexivity|lia].
      * intros Hm. apply Hbytes, Forall_insert; [exact Hm|unfold is_byte; lia].
    + assert (i = N) as -> by lia.
      exists mem, []. unfold ret.
      rewrite app_nil_r. split_and!; try reflexivity; try lia; try constructor; try tauto.
Qed.

Lemma init_spec param mem tr fuel data :
  group_fits N mem param ->
  (Z.to_nat N <= fuel)%nat ->
  exists mem' evs,
    EEPROM_InitWearLeveledByte N fuel param data (World mem tr)
    = Ok data (World mem' (tr ++ evs ++ [EvWrite param (u8 data)])) /\
    size mem' = size mem /\
    gen N mem' param 0 = N - 1 /\
    (forall j, 1 <= j < N -> gen N mem' param j = j - 1) /\
    dat mem' param 0 = u8 data /\
    (forall a, a <> param -> ~ (param + N <= a < param + 2 * N) ->
               cell mem' a = cell mem a) /\
    Forall (counter_write N param) evs /\
    (Forall is_byte mem -> Forall is_byte mem').
Proof.
  intros (Hp0 & Hsz & H16) Hfuel.
  unfold EEPROM_InitWearLeveledByte.
  unfold bind at 1. rewrite EEPROM_Write_ok by lia.
  rewrite (u8_small (N - 1)) by lia.
  destruct (init_loop_spec param Hp0 fuel 1 (<[Z.to_nat (param + N) := N - 1]> mem)
              (tr ++ [EvWrite (param + N) (N - 1)]))
    as (mem1 & evs & Hrun & Hsz1 & Hgen & Hframe & Hevs & Hbytes);
    [lia|rewrite size_insert; lia|lia|].
  unfold bind at 1. rewrite Hrun.
  rewrite size_insert in Hsz1.
  unfold bind at 1. rewrite EEPROM_Write_ok by lia.
  exists (<[Z.to_nat param := u8 data]> mem1), (EvWrite (param + N) (N - 1) :: evs).
  unfold ret. split_and!.
  - rewrite <- !app_assoc. reflexivity.
  - rewrite size_insert. exact Hsz1.
  - unfold gen. rewrite cell_insert_ne by lia. rewrite Hframe by lia.
    rewrite Z.add_0_r. apply cell_insert_eq. lia.
  - intros j Hj. unfold gen. rewrite cell_insert_ne by lia. apply Hgen. lia.
  - unfold dat. rewrite Z.add_0_r. apply cell_insert_eq. lia.
  - intros a Ha Hout. rewrite cell_insert_ne by lia. rewrite Hframe by lia.
    apply cell_insert_ne; lia.
  - constructor; [|exact Hevs]. eexists _, _. split; [reflexivity|lia].
  - intros Hm. apply Forall_insert; [|apply u8_is_byte].
    apply Hbytes, Forall_insert; [exact Hm|unfold is_byte; lia].
Qed.

End Initializer.

(** ** The ring of generation counters *)

Section Ring.

Variable N : Z.
Hypothesis N_pos : 1 <= N.
Hypothesis N_byte : N <= 255.

Lemma u8_succ_inj a b :
  is_byte a -> is_byte b -> u8 (a + 1) = u8 (b + 1) -> a = b.
Proof.
  unfold is_byte, u8. intros Ha Hb H.
  destruct (Z.eq_dec a 255) as [->|Ha'], (Z.eq_dec b 255) as [->|Hb'];
    try reflexivity.
  - rewrite (Z.mod_small (b + 1)) in H by lia.
    change ((255 + 1) mod 256) with 0 in H. lia.
  - rewrite (Z.mod_small (a + 1)) in H by lia.
    change ((255 + 1) mod 256) with 0 in H. lia.
  - rewrite !Z.mod_small in H by lia. lia.
Qed.

Lemma u8_add_l a b : u8 (u8 a + b) = u8 (a + b).
Proof. unfold u8. apply Zplus_mod_idemp_l. Qed.

(** Along an ascending run the counters are the first one plus the index. *)
Lemma run_value mem param k :
  (forall j, 0 <= j < k -> ascending N mem param j) ->
  is_byte (gen N mem param 0) ->
  forall j, 0 <= j <= k -> gen N mem param j = u8 (gen N mem param 0 + j).
Proof.
  intros Hrun Hb j Hj.
  replace j with (Z.of_nat (Z.to_nat j)) by lia.
  assert (Hn : (Z.to_nat j <= Z.to_nat k)%nat) by lia.
  induction (Z.to_nat j) as [|n IH].
  - simpl. rewrite Z.add_0_r. symmetry. apply u8_small. exact Hb.
  - replace (Z.of_nat (S n)) with (Z.of_nat n + 1) by lia.
    rewrite (Hrun (Z.of_nat n)) by lia.
    rewrite IH by lia. rewrite u8_add_l. f_equal. lia.
Qed.

Lemma gen_written param mem k data j :
  group_fits N mem param -> 0 <= k < N -> 0 <= j < N ->
  gen N (written N param mem k data) param j
  = if j =? next_slot N k then u8 (gen N mem param k + 1) else gen N mem param j.
Proof.
  intros (Hp0 & Hsz & H16) Hk Hj.
  pose proof (next_slot_range N N_pos k Hk) as Hn.
  unfold written, gen at 1.
  destruct (Z.eqb_spec j (next_slot N k)) as [->|Hne].
  - replace (param + N + next_slot N k) with (param + next_slot N k + N) by lia.
    apply cell_insert_eq. rewrite size_insert. lia.
  - rewrite !cell_insert_ne by lia. reflexivity.
Qed.

Lemma dat_written param mem k data j :
  group_fits N mem param -> 0 <= k < N -> 0 <= j < N ->
  dat (written N param mem k data) param j
  = if j =? next_slot N k then u8 data else dat mem param j.
Proof.
  intros (Hp0 & Hsz & H16) Hk Hj.
  pose proof (next_slot_range N N_pos k Hk) as Hn.
  unfold written, dat.
  rewrite cell_insert_ne by lia.
  destruct (Z.eqb_spec j (next_slot N k)) as [->|Hne].
  - apply cell_insert_eq. lia.
  - rewrite cell_insert_ne by lia. reflexivity.
Qed.

Lemma written_frame param mem k data a :
  group_fits N mem param -> 0 <= k < N ->
  a <> param + next_slot N k -> a <> param + next_slot N k + N ->
  cell (written N param mem k data) a = cell mem a.
Proof.
  intros (Hp0 & Hsz & H16) Hk H1 H2.
  pose proof (next_slot_range N N_pos k Hk) as Hn.
  unfold written. rewrite !cell_insert_ne by lia. reflexivity.
Qed.

Lemma written_bytes param mem k data :
  Forall is_byte mem -> Forall is_byte (written N param mem k data).
Proof.
  intros Hm. unfold written.
  apply Forall_insert; [|apply u8_is_byte].
  apply Forall_insert; [exact Hm|apply u8_is_byte].
Qed.

Lemma byte_array_counters param mem :
  group_fits N mem param -> Forall is_byte mem -> counters_are_bytes N mem param.
Proof.
  intros (Hp0 & Hsz & _) Hm j Hj. unfold gen, cell, size in *.
  destruct (Z.ltb_spec (param + N + j) 0); [lia|].
  destruct (mem !! Z.to_nat (param + N + j)) as [x|] eqn:E.
  - simpl. exact (Forall_lookup_1 _ _ _ _ Hm E).
  - apply lookup_ge_None in E. lia.
Qed.

Lemma size_written param mem k data :
  size (written N param mem k data) = size mem.
Proof. unfold written. rewrite !size_insert. reflexivity. Qed.

Lemma u8_shift_neq a d : 1 <= d <= 255 -> u8 a <> u8 (a + d).
Proof.
  unfold u8. intros Hd H.
  pose proof (Z.div_mod a 256) as Ha.
  pose proof (Z.div_mod (a + d) 256) as Hb.
  pose proof (Z.mod_pos_bound a 256).
  pose proof (Z.mod_pos_bound (a + d) 256).
  lia.
Qed.

Lemma init_single_run param mem :
  gen N mem param 0 = N - 1 ->
  (forall j, 1 <= j < N -> gen N mem param j = j - 1) ->
  single_run_at N mem param 0 /\ counters_are_bytes N mem param.
Proof.
  intros H0 Hj.
  assert (Hb : boundary N mem param 0).
  { split_and!; [lia|lia|intros; lia|].
    destruct (Z.eq_dec N 1) as [E|E]; [left; lia|right].
    unfold ascending. rewrite H0, Hj by lia.
    rewrite u8_small by lia. lia. }
  split.
  - split_and!; [exact Hb| |].
    + intros k' Hk'. exact (boundary_unique N param mem k' 0 Hk' Hb).
    + intros j Hr. unfold ascending. rewrite !Hj by lia.
      rewrite u8_small by lia. lia.
  - intros j Hr. unfold is_byte. destruct (Z.eq_dec j 0) as [->|E].
    + rewrite H0. lia.
    + rewrite Hj by lia. lia.
Qed.

Lemma written_single_run param mem k data :
  group_fits N mem param ->
  single_run_at N mem param k ->
  counters_are_bytes N mem param ->
  single_run_at N (written N param mem k data) param (next_slot N k) /\
  counters_are_bytes N (written N param mem k data) param.
Proof.
  intros Hfit ((Hk & Hrun & Hend) & _ & Hrest) Hbytes.
  assert (Hg : forall j, 0 <= j < N ->
             gen N (written N param mem k data) param j
             = if j =? next_slot N k then u8 (gen N mem param k + 1)
               else gen N mem param j)
    by (intros; apply gen_written; assumption).
  assert (Hbytes' : counters_are_bytes N (written N param mem k data) param).
  { intros j Hj. rewrite Hg by lia.
    destruct (j =? next_slot N k); [apply u8_is_byte|apply Hbytes; lia]. }
  split; [|exact Hbytes'].
  assert (Hb : boundary N (written N param mem k data) param (next_slot N k) /\
               forall j, next_slot N k < j < N - 1 ->
                         ascending N (written N param mem k data) param j).
  { unfold next_slot in *. destruct (Z.eqb_spec (k + 1) N) as [HkN|HkN].
    - split.
      + split_and!; [lia|lia|intros; lia|].
        destruct (Z.eq_dec N 1) as [E|E]; [left; lia|right].
        unfold ascending. rewrite !Hg by lia.
        change (0 + 1 =? 0) with false. change (0 =? 0) with true. cbv iota.
        assert (Hb0 : is_byte (gen N mem param 0)) by (apply Hbytes; lia).
        rewrite (run_value mem param k Hrun Hb0 (0 + 1)) by lia.
        rewrite (run_value mem param k Hrun Hb0 k) by lia.
        rewrite (u8_add_l (gen N mem param 0 + k) 1), u8_add_l.
        replace (gen N mem param 0 + k + 1 + 1) with (gen N mem param 0 + (0 + 1) + N) by lia.
        apply u8_shift_neq. lia.
      + intros j Hj. unfold ascending. rewrite !Hg by lia.
        destruct (Z.eqb_spec (j + 1) 0); [lia|].
        destruct (Z.eqb_spec j 0); [lia|].
        apply Hrun. lia.
    - split.
      + split_and!; [lia|lia| |].
        * intros j Hj. unfold ascending. rewrite !Hg by lia.
          destruct (Z.eqb_spec j (k + 1)); [lia|].
          destruct (Z.eqb_spec (j + 1) (k + 1)) as [E|E].
          -- replace j with k by lia. reflexivity.
          -- apply Hrun. lia.
        * destruct (Z.eq_dec (k + 1) (N - 1)) as [E|E]; [left; exact E|right].
          destruct Hend as [Hend|Hend]; [lia|].
          unfold ascending. rewrite !Hg by lia.
          destruct (Z.eqb_spec (k + 1 + 1) (k + 1)); [lia|].
          rewrite Z.eqb_refl.
          rewrite (Hrest (k + 1)) by lia.
          intros H. apply Hend. apply u8_succ_inj in H;
            [exact H|apply Hbytes; lia|apply u8_is_byte].
      + intros j Hj. unfold ascending. rewrite !Hg by lia.
        destruct (Z.eqb_spec (j + 1) (k + 1)); [lia|].
        destruct (Z.eqb_spec j (k + 1)); [lia|].
        apply Hrest. lia. }
  destruct Hb as [Hb Hr]. split_and!; [exact Hb| |exact Hr].
  intros k' Hk'. exact (boundary_unique N param _ k' _ Hk' Hb).
Qed.

End Ring.

(** ** Reachable states of a slot-group *)

Section Reachable.

Variable N : Z.
Hypothesis N_pos : 1 <= N.
Hypothesis N_byte : N <= 255.

Lemma last_data_write_app param tr evs :
  Forall (no_data_write N param) evs ->
  last_data_write N param (tr ++ evs) = last_data_write N param tr.
Proof.
  intros H. revert tr. induction H as [|e evs He _ IH]; intros tr.
  - rewrite app_nil_r. reflexivity.
  - replace (tr ++ e :: evs) with ((tr ++ [e]) ++ evs)
      by (rewrite <- app_assoc; reflexivity).
    rewrite IH. unfold last_data_write. rewrite fold_left_app. simpl.
    destruct e as [a|a d]; [reflexivity|]. simpl in He.
    destruct (Z.leb_spec param a), (Z.ltb_spec a (param + N)); simpl; try reflexivity.
    lia.
Qed.

Lemma last_data_write_snoc param tr a d :
  param <= a < param + N ->
  last_data_write N param (tr ++ [EvWrite a d]) = Some a.
Proof.
  intros Ha. unfold last_data_write. rewrite fold_left_app. simpl.
  destruct (Z.leb_spec param a), (Z.ltb_spec a (param + N)); simpl; try reflexivity; lia.
Qed.

Lemma reads_no_data_write param evs :
  Forall is_read evs -> Forall (no_data_write N param) evs.
Proof.
  intros H. eapply Forall_impl; [exact H|]. intros [a|a d] He; [exact I|destruct He].
Qed.

Lemma init_initialized param mem tr fuel data :
  group_fits N mem param ->
  (Z.to_nat N <= fuel)%nat ->
  exists w',
    EEPROM_InitWearLeveledByte N fuel param data (World mem tr) = Ok data w' /\
    initialized N param 0 w' /\
    dat (eeprom w') param 0 = u8 data.
Proof.
  intros Hfit Hfuel.
  destruct (init_spec N N_pos N_byte param mem tr fuel data Hfit Hfuel)
    as (mem' & evs & Hrun & Hsz & Hg0 & Hgj & Hd & _ & Hevs & _).
  eexists. split; [exact Hrun|]. simpl.
  destruct (init_single_run N N_pos N_byte param mem' Hg0 Hgj) as [Hsr Hb].
  split; [|exact Hd].
  split_and!; simpl; try assumption.
  - destruct Hfit as (? & ? & ?). unfold group_fits. rewrite Hsz. lia.
  - rewrite app_assoc, Z.add_0_r. apply last_data_write_snoc. lia.
Qed.

Lemma write_initialized param k w fuel data :
  initialized N param k w ->
  (Z.to_nat N <= fuel)%nat ->
  is_byte data ->
  exists w',
    EEPROM_WriteWearLeveledByte N fuel param data w = Ok tt w' /\
    initialized N param (slot_after N (eeprom w) param k data) w' /\
    dat (eeprom w') param (slot_after N (eeprom w) param k data) = data.
Proof.
  destruct w as [mem tr]. intros (Hfit & Hsr & Hb & Hlast) Hfuel Hdata.
  simpl in *. unfold slot_after.
  pose proof Hsr as (Hbnd & _).
  destruct (Z.eqb_spec (dat mem param k) data) as [Hsame|Hdiff].
  - destruct (write_same N N_pos param mem tr fuel k data Hfit Hfuel Hbnd Hsame)
      as (evs & Hrun & Hevs).
    eexists. split; [exact Hrun|]. split; [|exact Hsame].
    split_and!; simpl; try assumption.
    rewrite last_data_write_app by (apply reads_no_data_write; exact Hevs).
    exact Hlast.
  - destruct (write_changing N N_pos param mem tr fuel k data Hfit Hfuel Hbnd Hdiff)
      as (evs & Hrun & Hevs).
    pose proof Hbnd as (Hk & _).
    pose proof (next_slot_range N N_pos k Hk) as Hn.
    destruct (written_single_run N N_pos N_byte param mem k data Hfit Hsr Hb) as [Hsr' Hb'].
    eexists. split; [exact Hrun|]. split.
    + split_and!; cbn [eeprom trace]; try assumption.
      * destruct Hfit as (? & ? & ?). unfold group_fits.
        rewrite size_written. lia.
      * replace (tr ++ evs ++ [EvWrite (param + next_slot N k) (u8 data);
                               EvWrite (param + next_slot N k + N) (u8 (gen N mem param k + 1))])
          with (((tr ++ evs) ++ [EvWrite (param + next_slot N k) (u8 data)])
                  ++ [EvWrite (param + next_slot N k + N) (u8 (gen N mem param k + 1))])
          by (rewrite <- !app_assoc; reflexivity).
        rewrite last_data_write_app.
        -- apply last_data_write_snoc. lia.
        -- constructor; [simpl; lia|constructor].
    + cbn [eeprom]. rewrite dat_written by (assumption || lia).
      rewrite Z.eqb_refl. apply u8_small. exact Hdata.
Qed.

Lemma read_initialized param k w fuel :
  initialized N param k w ->
  (Z.to_nat N <= fuel)%nat ->
  exists evs,
    EEPROM_ReadWearLeveledByte N fuel param w
    = Ok (dat (eeprom w) param k) (World (eeprom w) (trace w ++ evs)) /\
    Forall is_read evs.
Proof.
  destruct w as [mem tr]. intros (Hfit & (Hbnd & _) & _ & _) Hfuel. simpl.
  apply read_at; assumption.
Qed.

Lemma initialized_after_reads param k mem tr evs :
  initialized N param k (World mem tr) ->
  Forall is_read evs ->
  initialized N param k (World mem (tr ++ evs)).
Proof.
  intros (Hfit & Hsr & Hb & Hlast) Hevs. split_and!; simpl in *; try assumption.
  rewrite last_data_write_app by (apply reads_no_data_write; exact Hevs).
  exact Hlast.
Qed.

End Reachable.

(** ** Sequences of updates *)

Section Sequences.

Variable N : Z.
Hypothesis N_pos : 1 <= N.
Hypothesis N_byte : N <= 255.

Lemma observed_updates_ok param fuel vs :
  (Z.to_nat N <= fuel)%nat ->
  Forall is_byte vs ->
  forall k w,
    initialized N param k w ->
    exists w', observed_updates N fuel param vs w = Ok vs w'.
Proof.
  intros Hfuel Hvs. induction Hvs as [|v vs Hv _ IH]; intros k w Hinit.
  - exists w. reflexivity.
  - destruct (write_initialized N N_pos N_byte param k w fuel v Hinit Hfuel Hv)
      as (w1 & Hw & Hinit1 & Hd).
    destruct (read_initialized N N_pos param _ w1 fuel Hinit1 Hfuel) as (evs & Hr & Hevs).
    destruct w1 as [mem1 tr1]. cbn [eeprom trace] in *.
    destruct (IH _ (World mem1 (tr1 ++ evs))
                (initialized_after_reads N param _ mem1 tr1 evs Hinit1 Hevs)) as (w' & Hrest).
    exists w'. cbn [observed_updates]. unfold bind. rewrite Hw, Hr, Hrest, Hd.
    reflexivity.
Qed.

Lemma updates_initialized param fuel vs :
  (Z.to_nat N <= fuel)%nat ->
  Forall is_byte vs ->
  forall k w,
    initialized N param k w ->
    exists w' k', updates N fuel param vs w = Ok tt w' /\ initialized N param k' w'.
Proof.
  intros Hfuel Hvs. induction Hvs as [|v vs Hv _ IH]; intros k w Hinit.
  - exists w, k. split; [reflexivity|exact Hinit].
  - destruct (write_initialized N N_pos N_byte param k w fuel v Hinit Hfuel Hv)
      as (w1 & Hw & Hinit1 & _).
    destruct (IH _ w1 Hinit1) as (w' & k' & Hrest & Hinit').
    exists w', k'. split; [|exact Hinit'].
    cbn [updates]. unfold bind. rewrite Hw. exact Hrest.
Qed.

End Sequences.

(** ** The initializer at [N = 256]

    The counted loop never leaves: its [uint8_t] index is always below
    256. *)


Lemma init_loop_256_never_returns param fuel :
  forall i w w', 0 <= i < 256 -> init_loop 256 fuel i param w <> Ok tt w'.
Proof.
  induction fuel as [|fuel IH]; intros i w w' Hi; cbn [init_loop];
    destruct (Z.ltb_spec i 256) as [_|Hge]; try lia.
  - discriminate.
  - unfold bind.
    destruct (EEPROM_Write (i + param + 256) (i - 1) w) as [[] w1| |w1];
      [|discriminate|discriminate].
    apply IH. apply (u8_is_byte (i + 1)).
Qed.

Lemma init_256_never_returns param fuel data w :
  forall d w', EEPROM_InitWearLeveledByte 256 fuel param data w <> Ok d w'.
Proof.
  intros d w'. unfold EEPROM_InitWearLeveledByte, bind.
  destruct (EEPROM_Write (param + 256) (256 - 1) w) as [[] w1| |w1];
    [|discriminate|discriminate].
  destruct (init_loop 256 fuel 1 param w1) as [[] w2| |w2] eqn:E;
    [|discriminate|discriminate].
  exfalso. apply (init_loop_256_never_returns param fuel 1 w1 w2); [lia|exact E].
Qed.

(** ** Counting cells, replaying traces *)

(** Distinct integers of an interval of length [n] are at most [n]. *)
Lemma distinct_in_interval (lo n : Z) (l : list Z) :
  0 <= n ->
  Forall (fun x => lo <= x < lo + n) l ->
  Z.of_nat (length (remove_dups l)) <= n.
Proof.
  intros Hn Hl.
  assert (Hsub : remove_dups l ⊆+ seqZ lo n).
  { apply NoDup_submseteq; [apply NoDup_remove_dups|].
    intros x Hx. rewrite elem_of_remove_dups in Hx.
    rewrite Forall_forall in Hl. apply elem_of_seqZ. apply Hl, Hx. }
  apply submseteq_length in Hsub. rewrite length_seqZ in Hsub. lia.
Qed.

Lemma counter_reads_addresses N param evs :
  Forall (counter_read N param) evs ->
  Forall (fun a => param + N <= a < param + N + N) (read_addresses evs).
Proof.
  induction 1 as [|e evs (a & -> & Ha) _ IH]; [constructor|].
  simpl. constructor; [lia|exact IH].
Qed.

Lemma replay_reads pre evs mem :
  Forall is_read pre -> replay (pre ++ evs) mem = replay evs mem.
Proof.
  intros H. unfold replay. rewrite fold_left_app. f_equal.
  induction H as [|e pre He _ IH]; [reflexivity|].
  destruct e; [exact IH|destruct He].
Qed.

Lemma boundary_agree N param mem mem' k :
  (forall j, 0 <= j < N -> gen N mem' param j = gen N mem param j) ->
  boundary N mem param k -> boundary N mem' param k.
Proof.
  intros Hg (Hk & Hrun & Hend). unfold boundary, ascending in *. split_and!; try lia.
  - intros j Hj. rewrite !Hg by lia. apply Hrun. exact Hj.
  - destruct Hend as [->|Hend]; [left; reflexivity|].
    destruct (Z.eq_dec k (N - 1)) as [->|Hne]; [left; reflexivity|right].
    rewrite !Hg by lia. exact Hend.
Qed.

(** ** The ring advances *)

Section Advance.

Variable N : Z.
Hypothesis N_pos : 1 <= N.
Hypothesis N_byte : N <= 255.

Lemma next_slot_mod k : 0 <= k < N -> next_slot N k = (k + 1) mod N.
Proof.
  intros Hk. unfold next_slot. destruct (Z.eqb_spec (k + 1) N) as [E|E].
  - rewrite E, Z_mod_same_full. reflexivity.
  - rewrite Z.mod_small by lia. reflexivity.
Qed.

Lemma changing_take cur vs i : changing cur vs -> changing cur (take i vs).
Proof.
  revert cur i. induction vs as [|v vs IH]; intros cur [|i] H; simpl; try exact I.
  destruct H as [Hv H]. split; [exact Hv|apply IH, H].
Qed.

Lemma changing_updates param fuel vs :
  (Z.to_nat N <= fuel)%nat ->
  Forall is_byte vs ->
  forall k w,
    initialized N param k w ->
    changing (dat (eeprom w) param k) vs ->
    exists w',
      updates N fuel param vs w = Ok tt w' /\
      initialized N param ((k + Z.of_nat (length vs)) mod N) w'.
Proof.
  intros Hfuel Hvs. induction Hvs as [|v vs Hv _ IH]; intros k w Hinit Hch.
  - exists w. split; [reflexivity|].
    pose proof Hinit as (_ & ((Hk & _) & _) & _).
    simpl. rewrite Z.add_0_r, Z.mod_small by lia. exact Hinit.
  - destruct Hch as [Hne Hch].
    pose proof Hinit as (_ & ((Hk & _) & _) & _).
    destruct (write_initialized N N_pos N_byte param k w fuel v Hinit Hfuel Hv)
      as (w1 & Hw & Hinit1 & Hd).
    unfold slot_after in *.
    destruct (Z.eqb_spec (dat (eeprom w) param k) v) as [E|_]; [congruence|].
    rewrite <- Hd in Hch.
    destruct (IH _ w1 Hinit1 Hch) as (w' & Hrest & Hinit').
    exists w'. split.
    + cbn [updates]. unfold bind. rewrite Hw. exact Hrest.
    + rewrite (next_slot_mod k Hk), Zplus_mod_idemp_l in Hinit'.
      replace (k + Z.of_nat (length (v :: vs))) with (k + 1 + Z.of_nat (length vs))
        by (simpl length; lia).
      exact Hinit'.
Qed.

Lemma active_after_changing param fuel vs k w :
  (Z.to_nat N <= fuel)%nat ->
  Forall is_byte vs ->
  initialized N param k w ->
  changing (dat (eeprom w) param k) vs ->
  exists w',
    active_after N fuel param vs w
    = Ok (param + (k + Z.of_nat (length vs)) mod N) w'.
Proof.
  intros Hfuel Hvs Hinit Hch.
  destruct (changing_updates param fuel vs Hfuel Hvs k w Hinit Hch)
    as ([mem' tr'] & Hu & Hfit & (Hbnd & _) & _).
  destruct (find_at N N_pos param mem' tr' fuel _ Hfit Hfuel Hbnd) as (evs & Hf & _).
  eexists. unfold active_after, bind. rewrite Hu. exact Hf.
Qed.

Lemma mod_shift_neq x d : 0 < d < N -> (x + d) mod N <> x mod N.
Proof.
  intros Hd H.
  assert (E : (x + d - x) mod N = 0)
    by (rewrite Zminus_mod, H, Z.sub_diag; apply Z.mod_0_l; lia).
  replace (x + d - x) with d in E by lia.
  rewrite Z.mod_small in E by lia. lia.
Qed.

Lemma mod_reach x s : 0 <= s < N -> (x + (s - x) mod N) mod N = s.
Proof.
  intros Hs. rewrite Zplus_mod_idemp_r.
  replace (x + (s - x)) with s by lia. apply Z.mod_small. exact Hs.
Qed.

End Advance.

(** ** The block engine *)

Section Block.

Variable N : Z.
Hypothesis N_pos : 1 <= N.

Lemma group_base_succ param i : group_base N param (i + 1) = group_base N param i + 2 * N.
Proof. unfold group_base. lia. Qed.

Lemma group_base_mono param i j : i <= j -> group_base N param i <= group_base N param j.
Proof.
  intros Hij. unfold group_base.
  apply Z.add_le_mono_l, Z.mul_le_mono_nonneg_r; lia.
Qed.

Lemma block_group_fits mem param len i :
  block_fits N mem param len -> 0 <= i < len ->
  group_fits N mem (group_base N param i) /\
  u16 (param + i * (N + N)) = group_base N param i.
Proof.
  intros (Hp0 & Hlen & Hsz & H16) Hi.
  pose proof (group_base_mono param 0 i ltac:(lia)) as H0.
  pose proof (group_base_mono param (i + 1) len ltac:(lia)) as H1.
  rewrite group_base_succ in H1.
  assert (group_base N param 0 = param) as E0 by (unfold group_base; lia).
  split.
  - unfold group_fits. lia.
  - apply u16_small. fold (group_base N param i). lia.
Qed.

Lemma groups_disjoint param i j a :
  i <> j -> in_group N param i a -> ~ in_group N param j a.
Proof.
  unfold in_group. intros Hne Hi Hj. rewrite group_base_succ in Hi, Hj.
  destruct (Z.lt_trichotomy i j) as [Hlt|[E|Hgt]]; [|contradiction|].
  - pose proof (group_base_mono param (i + 1) j ltac:(lia)) as H.
    rewrite group_base_succ in H. lia.
  - pose proof (group_base_mono param (j + 1) i ltac:(lia)) as H.
    rewrite group_base_succ in H. lia.
Qed.

Lemma reads_write_within lo hi evs :
  Forall is_read evs -> Forall (writes_within lo hi) evs.
Proof.
  intros H. eapply Forall_impl; [exact H|]. intros [a|a d] He; [exact I|destruct He].
Qed.

(** One call of [EEPROM_WriteWearLeveledByte], on any content: it
    returns and touches its own group only. *)
Lemma write_byte_frame b d mem tr fuel :
  group_fits N mem b ->
  (Z.to_nat N <= fuel)%nat ->
  exists mem' evs,
    EEPROM_WriteWearLeveledByte N fuel b d (World mem tr)
    = Ok tt (World mem' (tr ++ evs)) /\
    size mem' = size mem /\
    (forall a, ~ (b <= a < b + 2 * N) -> cell mem' a = cell mem a) /\
    Forall (writes_within b (b + 2 * N)) evs.
Proof.
  intros Hfit Hfuel.
  destruct (find_spec N N_pos b mem tr fuel Hfit Hfuel) as (k & _ & Hbnd & _).
  destruct (Z.eq_dec (dat mem b k) d) as [Hsame|Hdiff].
  - destruct (write_same N N_pos b mem tr fuel k d Hfit Hfuel Hbnd Hsame)
      as (evs & Hrun & Hevs).
    exists mem, evs. split_and!; [exact Hrun|reflexivity|reflexivity|].
    apply reads_write_within, Hevs.
  - destruct (write_changing N N_pos b mem tr fuel k d Hfit Hfuel Hbnd Hdiff)
      as (evs & Hrun & Hevs).
    pose proof Hbnd as (Hk & _).
    pose proof (next_slot_range N N_pos k Hk) as Hn.
    eexists _, _. split_and!; [exact Hrun| | |].
    + apply size_written.
    + intros a Ha. apply written_frame; try assumption; lia.
    + apply Forall_app. split; [apply reads_write_within, Hevs|].
      constructor; [simpl; lia|]. constructor; [simpl; lia|constructor].
Qed.

Lemma read_block_loop_spec param len mem fuel :
  block_fits N mem param len ->
  (Z.to_nat N <= fuel)%nat ->
  forall count i0 tr old w0,
    0 <= i0 -> i0 + Z.of_nat count <= len ->
    read_block_loop N fuel count i0 param (World mem tr) = Ok old w0 ->
    forall n, (n < count)%nat ->
      exists k,
        boundary N mem (group_base N param (i0 + Z.of_nat n)) k /\
        old !! n = Some (dat mem (group_base N param (i0 + Z.of_nat n)) k).
Proof.
  intros Hfit Hfuel.
  induction count as [|count IH]; intros i0 tr old w0 Hi0 Hlen Hrun n Hn; [lia|].
  destruct (block_group_fits mem param len i0 Hfit ltac:(lia)) as [Hg Hu].
  destruct (find_spec N N_pos _ mem tr fuel Hg Hfuel) as (k & _ & Hbnd & _).
  destruct (read_at N N_pos _ mem tr fuel k Hg Hfuel Hbnd) as (evs & Hr & _).
  cbn [read_block_loop] in Hrun. unfold bind at 1 in Hrun.
  rewrite Hu, Hr in Hrun. unfold bind, ret in Hrun.
  destruct (read_block_loop N fuel count (i0 + 1) param (World mem (tr ++ evs)))
    as [rest w1| |w1] eqn:Hrest; try discriminate.
  injection Hrun as <- _.
  destruct n as [|n].
  - exists k. rewrite Z.add_0_r. split; [exact Hbnd|reflexivity].
  - destruct (IH (i0 + 1) _ rest w1 ltac:(lia) ltac:(lia) Hrest n ltac:(lia)) as (k' & Hb' & Hl').
    exists k'. replace (i0 + Z.of_nat (S n)) with (i0 + 1 + Z.of_nat n) by lia.
    split; [exact Hb'|exact Hl'].
Qed.

(** The loop of [EEPROM_WriteWearLeveledBlock] when every byte of the
    buffer but byte [j] is the stored one. *)
Lemma write_block_loop_spec param len j data mem fuel :
  block_fits N mem param len ->
  (Z.to_nat N <= fuel)%nat ->
  0 <= j < len ->
  is_Some (data !! Z.to_nat j) ->
  (forall i, 0 <= i < len -> i <> j ->
     exists k, boundary N mem (group_base N param i) k /\
               data !! Z.to_nat i = Some (dat mem (group_base N param i) k)) ->
  forall count i0 m tr,
    0 <= i0 -> i0 + Z.of_nat count <= len ->
    size m = size mem ->
    (forall a, ~ in_group N param j a -> cell m a = cell mem a) ->
    exists m' evs,
      for_upto count i0
        (fun i => let* d := buffer_get data i in
                  EEPROM_WriteWearLeveledByte N fuel (u16 (param + i * (N + N))) d)
        (World m tr)
      = Ok tt (World m' (tr ++ evs)) /\
      size m' = size mem /\
      (forall a, ~ in_group N param j a -> cell m' a = cell mem a) /\
      Forall (writes_within (group_base N param j) (group_base N param (j + 1))) evs.
Proof.
  intros Hfit Hfuel Hj [dj Hdj] Hold.
  induction count as [|count IH]; intros i0 m tr Hi0 Hlen Hsz Hframe.
  - exists m, []. rewrite app_nil_r. split_and!; try assumption; [reflexivity|constructor].
  - destruct (block_group_fits mem param len i0 Hfit ltac:(lia)) as [Hg Hu].
    assert (Hgm : group_fits N m (group_base N param i0))
      by (unfold group_fits in *; rewrite Hsz; exact Hg).
    cbn [for_upto]. unfold bind at 1. unfold bind at 1. rewrite Hu.
    destruct (Z.eq_dec i0 j) as [->|Hne].
    + unfold buffer_get at 1. rewrite Hdj.
      destruct (write_byte_frame (group_base N param j) dj m tr fuel Hgm Hfuel)
        as (m1 & evs1 & Hw & Hsz1 & Hframe1 & Hevs1).
      rewrite Hw.
      destruct (IH (j + 1) m1 (tr ++ evs1)) as (m' & evs & Hrun & Hsz' & Hframe' & Hevs);
        [lia|lia|congruence| |].
      { intros a Ha. rewrite Hframe1; [apply Hframe, Ha|].
        unfold in_group in Ha. rewrite group_base_succ in Ha. lia. }
      exists m', (evs1 ++ evs). rewrite Hrun, app_assoc.
      split_and!; try assumption; [reflexivity|].
      apply Forall_app. split; [|exact Hevs].
      rewrite group_base_succ. exact Hevs1.
    + destruct (Hold i0 ltac:(lia) Hne) as (k & Hbnd & Hd).
      unfold buffer_get at 1. rewrite Hd.
      assert (Hcells : forall a, in_group N param i0 a -> cell m a = cell mem a).
      { intros a Ha. apply Hframe. apply (groups_disjoint param i0 j a Hne Ha). }
      assert (Hbnd' : boundary N m (group_base N param i0) k).
      { apply (boundary_agree N _ mem); [|exact Hbnd].
        intros i Hi. unfold gen. apply Hcells.
        unfold in_group. rewrite group_base_succ. lia. }
      assert (Hsame : dat m (group_base N param i0) k
                      = dat mem (group_base N param i0) k).
      { destruct Hbnd as (Hk & _). unfold dat. apply Hcells.
        unfold in_group. rewrite group_base_succ. lia. }
      destruct (write_same N N_pos _ m tr fuel k _ Hgm Hfuel Hbnd' Hsame)
        as (evs1 & Hw & Hevs1).
      rewrite Hw.
      destruct (IH (i0 + 1) m (tr ++ evs1)) as (m' & evs & Hrun & Hsz' & Hframe' & Hevs);
        [lia|lia|assumption|assumption|].
      exists m', (evs1 ++ evs). rewrite Hrun, app_assoc.
      split_and!; try assumption; [reflexivity|].
      apply Forall_app. split; [|exact Hevs].
      apply reads_write_within, Hevs1.
Qed.

End Block.

(** * The claims *)

(** C1. After [EEPROM_InitWearLeveledByte (base, v0)] and successive
    [EEPROM_WriteWearLeveledByte (base, vi)], the read after each step
    returns the value of that step: a session returns [v0 :: vs]. *)
Theorem update_correctness (N param v0 : Z) (vs mem : list Z) (tr : list event) (fuel : nat) :
  1 <= N <= 255 ->
  group_fits N mem param ->
  is_byte v0 -> Forall is_byte vs ->
  (Z.to_nat N <= fuel)%nat ->
  exists w', session N fuel param v0 vs (World mem tr) = Ok (v0 :: vs) w'.
Proof.
  intros [N_pos N_byte] Hfit Hv0 Hvs Hfuel.
  destruct (init_initialized N N_pos N_byte param mem tr fuel v0 Hfit Hfuel)
    as (w1 & Hi & Hinit & Hd).
  destruct (read_initialized N N_pos param 0 w1 fuel Hinit Hfuel) as (evs & Hr & Hevs).
  destruct w1 as [mem1 tr1]. cbn [eeprom trace] in *.
  destruct (observed_updates_ok N N_pos N_byte param fuel vs Hfuel Hvs 0
              (World mem1 (tr1 ++ evs))
              (initialized_after_reads N param 0 mem1 tr1 evs Hinit Hevs)) as (w' & Hobs).
  exists w'. unfold session, bind. rewrite Hi, Hr, Hobs, Hd.
  rewrite (u8_small v0 Hv0). reflexivity.
Qed.

Lemma update_correctness_witness :
  exists w', session 8 8 0 64 [65; 65; 255; 0] (blank 512) = Ok [64; 65; 65; 255; 0] w'.
Proof.
  apply (update_correctness 8 0 64 [65; 65; 255; 0] (replicate 512 255) [] 8).
  - lia.
  - unfold group_fits, size. simpl. lia.
  - unfold is_byte. lia.
  - repeat constructor; unfold is_byte; lia.
  - simpl. lia.
Defined.

(** C2, for the wear-level factors the initializer supports. For every
    [N] from 1 to 255, after an initialization and any sequence of
    updates the resolver returns the data cell written last, however
    often the generation counters have wrapped from 255 to 0. *)
Theorem resolver_tracks_latest_write (N : Z) :
  1 <= N <= 255 -> resolves_latest_write N.
Proof.
  intros [N_pos N_byte] param v0 vs mem tr Hfit Hv0 Hvs.
  assert (Hfuel : (Z.to_nat N <= Z.to_nat N)%nat) by lia.
  destruct (init_initialized N N_pos N_byte param mem tr _ v0 Hfit Hfuel)
    as (w1 & Hi & Hinit & _).
  destruct (updates_initialized N N_pos N_byte param _ vs Hfuel Hvs 0 w1 Hinit)
    as (w' & k & Hu & Hfit' & (Hbnd & _) & _ & Hlast).
  destruct w' as [mem' tr'].
  destruct (find_at N N_pos param mem' tr' _ k Hfit' Hfuel Hbnd) as (evs & Hf & _).
  exists (Z.to_nat N), (World mem' tr'), (param + k), evs.
  split_and!; [|exact Hlast|exact Hf].
  unfold init_then_updates, bind. rewrite Hi. exact Hu.
Qed.

Lemma resolver_tracks_latest_write_witness :
  resolves_latest_write 8 /\ group_fits 8 (replicate 512 255) 0.
Proof.
  split.
  - apply (resolver_tracks_latest_write 8). lia.
  - unfold group_fits, size. simpl. lia.
Defined.

(** C2 as stated fails at [N = 256]. No call of the initializer returns
    (its [uint8_t] index is always below 256), so that the states the
    claim speaks of are never reached; and the counters that the
    initializer has laid down when its loop has gone round once, 255,
    0, 1, ..., 254, ascend without a seam: on them the resolver answers
    slot 255, while no data cell has been written. *)
Lemma resolver_factor_256_fails :
  ~ resolves_latest_write 256 /\
  exists w w',
    EEPROM_InitWearLeveledByte 256 255 0 0x40 (blank 512) = OutOfFuel w /\
    last_data_write 256 0 (trace w) = None /\
    EEPROM_FindCurrentAddress 256 256 0 w = Ok 255 w'.
Proof.
  split.
  - intros H.
    destruct (H 0 0x40 [] (replicate 512 255) []) as (fuel & w' & a & evs & Hrun & _).
    + unfold group_fits, size. simpl. lia.
    + unfold is_byte. lia.
    + constructor.
    + unfold init_then_updates, bind in Hrun.
      destruct (EEPROM_InitWearLeveledByte 256 fuel 0 0x40 (World (replicate 512 255) []))
        as [d w1| |w1] eqn:E; [|discriminate|discriminate].
      exact (init_256_never_returns 0 fuel 0x40 _ d w1 E).
  - do 2 eexists. split; [vm_compute; reflexivity|].
    split; vm_compute; reflexivity.
Qed.

(** C3. The single-run invariant holds after
    [EEPROM_InitWearLeveledByte] and every
    [EEPROM_WriteWearLeveledByte] on a group that has it keeps it. *)
Theorem single_run_invariant (N param data : Z) (mem : list Z) (tr : list event) (fuel : nat) :
  1 <= N <= 255 ->
  group_fits N mem param ->
  Forall is_byte mem ->
  (Z.to_nat N <= fuel)%nat ->
  (exists w',
      EEPROM_InitWearLeveledByte N fuel param data (World mem tr) = Ok data w' /\
      single_run N (eeprom w') param /\ Forall is_byte (eeprom w'))
  /\
  (single_run N mem param ->
   exists w',
      EEPROM_WriteWearLeveledByte N fuel param data (World mem tr) = Ok tt w' /\
      single_run N (eeprom w') param /\ Forall is_byte (eeprom w')).
Proof.
  intros [N_pos N_byte] Hfit Hm Hfuel. split.
  - destruct (init_spec N N_pos N_byte param mem tr fuel data Hfit Hfuel)
      as (mem' & evs & Hrun & _ & Hg0 & Hgj & _ & _ & _ & Hbytes).
    destruct (init_single_run N N_pos N_byte param mem' Hg0 Hgj) as [Hsr _].
    eexists. split_and!; [exact Hrun| |exact (Hbytes Hm)]. exists 0. exact Hsr.
  - intros (k & Hsr). pose proof Hsr as (Hbnd & _).
    pose proof (byte_array_counters N param mem Hfit Hm) as Hb.
    destruct (Z.eq_dec (dat mem param k) data) as [Hsame|Hdiff].
    + destruct (write_same N N_pos param mem tr fuel k data Hfit Hfuel Hbnd Hsame)
        as (evs & Hrun & _).
      eexists. split_and!; [exact Hrun| |exact Hm]. exists k. exact Hsr.
    + destruct (write_changing N N_pos param mem tr fuel k data Hfit Hfuel Hbnd Hdiff)
        as (evs & Hrun & _).
      destruct (written_single_run N N_pos N_byte param mem k data Hfit Hsr Hb)
        as [Hsr' _].
      eexists. split_and!; [exact Hrun| |exact (written_bytes N param mem k data Hm)].
      eexists. exact Hsr'.
Qed.

Lemma single_run_invariant_witness :
  single_run 4 [0x40; 0x41; 0xFF; 0xFF; 0x03; 0x04; 0x01; 0x02] 0 /\
  ~ single_run 4 (replicate 8 0xFF) 0 /\
  (exists w',
      EEPROM_InitWearLeveledByte 4 4 0 0x42
        (World [0x40; 0x41; 0xFF; 0xFF; 0x03; 0x04; 0x01; 0x02] []) = Ok 0x42 w' /\
      single_run 4 (eeprom w') 0 /\ Forall is_byte (eeprom w')) /\
  (exists w',
      EEPROM_WriteWearLeveledByte 4 4 0 0x42
        (World [0x40; 0x41; 0xFF; 0xFF; 0x03; 0x04; 0x01; 0x02] []) = Ok tt w' /\
      single_run 4 (eeprom w') 0 /\ Forall is_byte (eeprom w')).
Proof.
  assert (Hb : boundary 4 [0x40; 0x41; 0xFF; 0xFF; 0x03; 0x04; 0x01; 0x02] 0 1).
  { split; [lia|]. split.
    - intros j Hj. assert (j = 0) as -> by lia. vm_compute. reflexivity.
    - right. intros H. vm_compute in H. discriminate. }
  assert (Hsr : single_run 4 [0x40; 0x41; 0xFF; 0xFF; 0x03; 0x04; 0x01; 0x02] 0).
  { exists 1. split; [exact Hb|]. split.
    - intros k' Hk'. exact (boundary_unique 4 0 _ k' 1 Hk' Hb).
    - intros j Hj. assert (j = 2) as -> by lia. vm_compute. reflexivity. }
  assert (Hblank : ~ single_run 4 (replicate 8 0xFF) 0).
  { intros (k & _ & Huniq & Hasc).
    assert (H0 : boundary 4 (replicate 8 0xFF) 0 0).
    { split; [lia|]. split; [intros j Hj; lia|].
      right. intros H. vm_compute in H. discriminate. }
    rewrite <- (Huniq 0 H0) in Hasc.
    specialize (Hasc 1 ltac:(lia)). vm_compute in Hasc. discriminate. }
  destruct (single_run_invariant 4 0 0x42 [0x40; 0x41; 0xFF; 0xFF; 0x03; 0x04; 0x01; 0x02] [] 4)
    as [Hi Hw].
  - lia.
  - unfold group_fits, size. simpl. lia.
  - repeat constructor; unfold is_byte; lia.
  - simpl. lia.
  - split; [exact Hsr|]. split; [exact Hblank|]. split; [exact Hi|exact (Hw Hsr)].
Defined.

(** C4. A write of the value that a read returns leaves the whole
    medium as it is: the call only reads. *)
Theorem write_elision (N param v : Z) (mem : list Z) (tr : list event) (fuel : nat) (w0 : world) :
  1 <= N ->
  group_fits N mem param ->
  (Z.to_nat N <= fuel)%nat ->
  EEPROM_ReadWearLeveledByte N fuel param (World mem tr) = Ok v w0 ->
  exists evs,
    EEPROM_WriteWearLeveledByte N fuel param v (World mem tr)
    = Ok tt (World mem (tr ++ evs)) /\
    Forall is_read evs.
Proof.
  intros N_pos Hfit Hfuel Hread.
  destruct (find_spec N N_pos param mem tr fuel Hfit Hfuel) as (k & _ & Hbnd & _).
  destruct (read_at N N_pos param mem tr fuel k Hfit Hfuel Hbnd) as (evs & Hr & _).
  rewrite Hr in Hread. injection Hread as Hv _.
  apply (write_same N N_pos param mem tr fuel k v Hfit Hfuel Hbnd Hv).
Qed.

Lemma write_elision_witness :
  exists evs,
    EEPROM_WriteWearLeveledByte 8 8 0 0x41
      (World [0x40; 0x41; 0xFF; 0xFF; 0xFF; 0xFF; 0xFF; 0xFF;
              0x07; 0x08; 0x01; 0x02; 0x03; 0x04; 0x05; 0x06] [])
    = Ok tt
        (World [0x40; 0x41; 0xFF; 0xFF; 0xFF; 0xFF; 0xFF; 0xFF;
                0x07; 0x08; 0x01; 0x02; 0x03; 0x04; 0x05; 0x06] ([] ++ evs)) /\
    Forall is_read evs.
Proof.
  eapply (write_elision 8 0 0x41 _ [] 8).
  - lia.
  - unfold group_fits, size. simpl. lia.
  - simpl. lia.
  - vm_compute. reflexivity.
Defined.

(** C5. [EEPROM_InitWearLeveledByte (base, v)] returns [v]; afterwards
    slot 0 is the boundary of the run, the resolver returns its
    address, and [EEPROM_ReadWearLeveledByte (base)] returns [v]. *)
Theorem init_round_trip (N param v : Z) (mem : list Z) (tr : list event) (fuel : nat) :
  1 <= N <= 255 ->
  group_fits N mem param ->
  is_byte v ->
  (Z.to_nat N <= fuel)%nat ->
  exists w' evs evs',
    EEPROM_InitWearLeveledByte N fuel param v (World mem tr) = Ok v w' /\
    boundary N (eeprom w') param 0 /\
    EEPROM_FindCurrentAddress N fuel param w'
    = Ok param (World (eeprom w') (trace w' ++ evs)) /\
    EEPROM_ReadWearLeveledByte N fuel param w'
    = Ok v (World (eeprom w') (trace w' ++ evs')).
Proof.
  intros [N_pos N_byte] Hfit Hv Hfuel.
  destruct (init_initialized N N_pos N_byte param mem tr fuel v Hfit Hfuel)
    as (w1 & Hi & Hinit & Hd).
  pose proof Hinit as (Hfit1 & (Hbnd & _) & _).
  destruct (read_initialized N N_pos param 0 w1 fuel Hinit Hfuel) as (evs' & Hr & _).
  destruct w1 as [mem1 tr1]. cbn [eeprom trace] in *.
  destruct (find_at N N_pos param mem1 tr1 fuel 0 Hfit1 Hfuel Hbnd) as (evs & Hf & _).
  exists (World mem1 tr1), evs, evs'. cbn [eeprom trace].
  rewrite Hd, (u8_small v Hv) in Hr. rewrite Z.add_0_r in Hf.
  split_and!; assumption.
Qed.

Lemma init_round_trip_witness :
  exists w' evs evs',
    EEPROM_InitWearLeveledByte 8 8 0 0x40 (blank 512) = Ok 0x40 w' /\
    boundary 8 (eeprom w') 0 0 /\
    EEPROM_FindCurrentAddress 8 8 0 w' = Ok 0 (World (eeprom w') (trace w' ++ evs)) /\
    EEPROM_ReadWearLeveledByte 8 8 0 w' = Ok 0x40 (World (eeprom w') (trace w' ++ evs')).
Proof.
  apply (init_round_trip 8 0 0x40 (replicate 512 255) [] 8).
  - lia.
  - unfold group_fits, size. simpl. lia.
  - unfold is_byte. lia.
  - simpl. lia.
Defined.

(** C6. Byte [i] of a block lives in the group based at
    [param + i * 2N]; a block write whose buffer differs from the
    stored block in byte [j] at most writes inside the group of byte
    [j] only and leaves every other cell of the medium as it is. *)
Theorem block_independence (N param len j : Z) (data old mem : list Z)
    (tr : list event) (fuel : nat) (w0 : world) :
  1 <= N ->
  block_fits N mem param len ->
  (Z.to_nat N <= fuel)%nat ->
  0 <= j < len ->
  Z.of_nat (length data) = len ->
  EEPROM_ReadWearLeveledBlock N fuel param len (World mem tr) = Ok old w0 ->
  (forall i, i <> Z.to_nat j -> data !! i = old !! i) ->
  exists mem' evs,
    EEPROM_WriteWearLeveledBlock N fuel param data len (World mem tr)
    = Ok tt (World mem' (tr ++ evs)) /\
    size mem' = size mem /\
    (forall a, ~ (param + j * (2 * N) <= a < param + (j + 1) * (2 * N)) ->
               cell mem' a = cell mem a) /\
    Forall (writes_within (param + j * (2 * N)) (param + (j + 1) * (2 * N))) evs.
Proof.
  intros N_pos Hfit Hfuel Hj Hlen Hread Hdiff.
  assert (Hb : forall i, group_base N param i = param + i * (2 * N))
    by (intros; unfold group_base; lia).
  rewrite <- !Hb.
  apply (write_block_loop_spec N N_pos param len j data mem fuel Hfit Hfuel Hj).
  - apply lookup_lt_is_Some. lia.
  - intros i Hi Hne.
    destruct (read_block_loop_spec N N_pos param len mem fuel Hfit Hfuel
                (Z.to_nat len) 0 tr old w0 ltac:(lia) ltac:(lia) Hread
                (Z.to_nat i) ltac:(lia)) as (k & Hbnd & Hl).
    rewrite Z.add_0_l, Z2Nat.id in Hbnd, Hl by lia.
    exists k. split; [exact Hbnd|]. rewrite Hdiff by lia. exact Hl.
  - lia.
  - lia.
  - reflexivity.
  - intros; reflexivity.
Qed.

(** The block of main.c ([settings] at offset 16, three bytes) after
    its initialization, and the buffer after [settings.score++]. *)
Lemma block_independence_witness :
  let mem := [0x40; 0xFF; 0xFF; 0xFF; 0xFF; 0xFF; 0xFF; 0xFF;
              0x07; 0x00; 0x01; 0x02; 0x03; 0x04; 0x05; 0x06;
              0xFD; 0xFF; 0xFF; 0xFF; 0xFF; 0xFF; 0xFF; 0xFF;
              0x07; 0x00; 0x01; 0x02; 0x03; 0x04; 0x05; 0x06;
              0x00; 0xFF; 0xFF; 0xFF; 0xFF; 0xFF; 0xFF; 0xFF;
              0x07; 0x00; 0x01; 0x02; 0x03; 0x04; 0x05; 0x06;
              0x01; 0xFF; 0xFF; 0xFF; 0xFF; 0xFF; 0xFF; 0xFF;
              0x07; 0x00; 0x01; 0x02; 0x03; 0x04; 0x05; 0x06] in
  exists mem' evs,
    EEPROM_WriteWearLeveledBlock 8 8 16 [0xFE; 0x00; 0x01] 3 (World mem [])
    = Ok tt (World mem' ([] ++ evs)) /\
    size mem' = size mem /\
    (forall a, ~ (16 + 0 * (2 * 8) <= a < 16 + (0 + 1) * (2 * 8)) ->
               cell mem' a = cell mem a) /\
    Forall (writes_within (16 + 0 * (2 * 8)) (16 + (0 + 1) * (2 * 8))) evs.
Proof.
  intros mem.
  eapply (block_independence 8 16 3 0 [0xFE; 0x00; 0x01] [0xFD; 0x00; 0x01] mem [] 8).
  - lia.
  - unfold block_fits, group_base, size. simpl. lia.
  - simpl. lia.
  - lia.
  - reflexivity.
  - vm_compute. reflexivity.
  - intros [|[|[|i]]] Hi; simpl; try reflexivity. contradiction.
Defined.


(** C7. From a group that was initialized and updated, with slot [k]
    active, updates that each change the value move the active slot to
    [(k + 1) mod N] each: after [i] of them slot [(k + i) mod N] is
    active, so that [N] consecutive states have [N] different active
    slots, every slot among them. *)
Theorem ring_advancement (N param v0 k cur : Z) (vs0 vs mem : list Z)
    (tr : list event) (fuel : nat) (w wk wc : world) :
  1 <= N <= 255 ->
  group_fits N mem param ->
  is_byte v0 -> Forall is_byte vs0 -> Forall is_byte vs ->
  (Z.to_nat N <= fuel)%nat ->
  init_then_updates N fuel param v0 vs0 (World mem tr) = Ok tt w ->
  EEPROM_FindCurrentAddress N fuel param w = Ok (param + k) wk ->
  EEPROM_ReadWearLeveledByte N fuel param w = Ok cur wc ->
  changing cur vs ->
  (forall i, (i <= length vs)%nat ->
     exists w', active_after N fuel param (take i vs) w
                = Ok (param + (k + Z.of_nat i) mod N) w') /\
  (forall i j a wi wj, (i < j <= length vs)%nat -> (j < i + Z.to_nat N)%nat ->
     active_after N fuel param (take i vs) w = Ok a wi ->
     active_after N fuel param (take j vs) w <> Ok a wj) /\
  (forall i s, (i + Z.to_nat N <= S (length vs))%nat -> 0 <= s < N ->
     exists j w', (i <= j < i + Z.to_nat N)%nat /\
       active_after N fuel param (take j vs) w = Ok (param + s) w').
Proof.
  intros [N_pos N_byte] Hfit Hv0 Hvs0 Hvs Hfuel Hreach Hfind Hread Hch.
  destruct (init_initialized N N_pos N_byte param mem tr fuel v0 Hfit Hfuel)
    as (w1 & Hi & Hinit1 & _).
  destruct (updates_initialized N N_pos N_byte param fuel vs0 Hfuel Hvs0 0 w1 Hinit1)
    as (w' & k' & Hu & Hinit).
  unfold init_then_updates, bind in Hreach. rewrite Hi, Hu in Hreach.
  injection Hreach as ->.
  destruct (read_initialized N N_pos param k' w fuel Hinit Hfuel) as (revs & Hr & _).
  rewrite Hr in Hread. injection Hread as Hcur _.
  pose proof Hinit as (Hfit' & (Hbnd & _) & _).
  destruct w as [mem' tr'].
  destruct (find_at N N_pos param mem' tr' fuel k' Hfit' Hfuel Hbnd) as (fevs & Hf & _).
  rewrite Hf in Hfind. injection Hfind as Hk _.
  assert (k' = k) as -> by lia. clear Hk.
  cbn [eeprom] in Hcur. rewrite <- Hcur in Hch.
  assert (Hstep : forall i, (i <= length vs)%nat ->
            exists w', active_after N fuel param (take i vs) (World mem' tr')
                       = Ok (param + (k + Z.of_nat i) mod N) w').
  { intros i Hi'.
    destruct (active_after_changing N N_pos N_byte param fuel (take i vs) k
                (World mem' tr') Hfuel ltac:(apply Forall_take; exact Hvs) Hinit
                (changing_take _ vs i Hch)) as (w' & Ha).
    rewrite length_take in Ha. replace (i `min` length vs)%nat with i in Ha by lia.
    exists w'. exact Ha. }
  split_and!.
  - exact Hstep.
  - intros i j a wi wj Hij Hwin Hai Haj.
    destruct (Hstep i) as (wi' & Hi''); [lia|].
    destruct (Hstep j) as (wj' & Hj''); [lia|].
    rewrite Hi'' in Hai. rewrite Hj'' in Haj.
    injection Hai as Hai _. injection Haj as Haj _.
    apply (mod_shift_neq N N_pos (k + Z.of_nat i) (Z.of_nat j - Z.of_nat i)); [lia|].
    replace (k + Z.of_nat i + (Z.of_nat j - Z.of_nat i)) with (k + Z.of_nat j) by lia.
    lia.
  - intros i s Hwin Hs.
    pose proof (Z.mod_pos_bound (s - (k + Z.of_nat i)) N ltac:(lia)) as Hb.
    destruct (Hstep (i + Z.to_nat ((s - (k + Z.of_nat i)) mod N))%nat) as (w' & Ha); [lia|].
    exists (i + Z.to_nat ((s - (k + Z.of_nat i)) mod N))%nat, w'.
    split; [lia|]. rewrite Ha. f_equal. f_equal.
    rewrite Nat2Z.inj_add, Z2Nat.id by lia.
    rewrite Z.add_assoc. apply (mod_reach N). exact Hs.
Qed.

Lemma ring_advancement_witness :
  exists w,
    init_then_updates 3 3 0 1 [2] (blank 6) = Ok tt w /\
    (forall i, (i <= 4)%nat ->
       exists w', active_after 3 3 0 (take i [3; 4; 5; 6]) w
                  = Ok (0 + (1 + Z.of_nat i) mod 3) w') /\
    (forall i j a wi wj, (i < j <= 4)%nat -> (j < i + 3)%nat ->
       active_after 3 3 0 (take i [3; 4; 5; 6]) w = Ok a wi ->
       active_after 3 3 0 (take j [3; 4; 5; 6]) w <> Ok a wj) /\
    (forall i s, (i + 3 <= 5)%nat -> 0 <= s < 3 ->
       exists j w', (i <= j < i + 3)%nat /\
         active_after 3 3 0 (take j [3; 4; 5; 6]) w = Ok (0 + s) w').
Proof.
  eexists. split; [vm_compute; reflexivity|].
  eapply (ring_advancement 3 0 1 1 2 [2] [3; 4; 5; 6] (replicate 6 255) [] 3).
  - lia.
  - unfold group_fits, size. simpl. lia.
  - unfold is_byte. lia.
  - repeat constructor; unfold is_byte; lia.
  - repeat constructor; unfold is_byte; lia.
  - simpl. lia.
  - vm_compute. reflexivity.
  - vm_compute. reflexivity.
  - vm_compute. reflexivity.
  - simpl. repeat split; lia.
Defined.

(** C8. The scenario of main.c with [N = 8] on the blank medium of 512
    cells: the region at base 0 after the initialization with 0x40,
    after the update to 0x41, and after the same update again. *)
Example concrete_scenario :
  exists w1 w2 w3,
    EEPROM_InitWearLeveledByte 8 8 0 0x40 (blank 512) = Ok 0x40 w1 /\
    take 16 (eeprom w1)
    = [0x40; 0xFF; 0xFF; 0xFF; 0xFF; 0xFF; 0xFF; 0xFF;
       0x07; 0x00; 0x01; 0x02; 0x03; 0x04; 0x05; 0x06] /\
    EEPROM_WriteWearLeveledByte 8 8 0 0x41 w1 = Ok tt w2 /\
    take 16 (eeprom w2)
    = [0x40; 0x41; 0xFF; 0xFF; 0xFF; 0xFF; 0xFF; 0xFF;
       0x07; 0x08; 0x01; 0x02; 0x03; 0x04; 0x05; 0x06] /\
    EEPROM_WriteWearLeveledByte 8 8 0 0x41 w2 = Ok tt w3 /\
    eeprom w3 = eeprom w2.
Proof.
  do 3 eexists.
  split; [vm_compute; reflexivity|].
  split; [vm_compute; reflexivity|].
  split; [vm_compute; reflexivity|].
  split; [vm_compute; reflexivity|].
  split; [vm_compute; reflexivity|].
  vm_compute; reflexivity.
Qed.

(** C9. On any content of the medium the resolver returns, within [N]
    rounds of its loop; it reads counter cells of the group only, hence
    at most [N] cells (in at most [2N - 1] accesses), and it returns
    the address of a data cell of the group. *)
Theorem resolver_safety (N param : Z) (mem : list Z) (tr : list event) :
  1 <= N ->
  group_fits N mem param ->
  exists a evs,
    EEPROM_FindCurrentAddress N (Z.to_nat N) param (World mem tr)
    = Ok a (World mem (tr ++ evs)) /\
    param <= a < param + N /\
    Forall (counter_read N param) evs /\
    Z.of_nat (length (remove_dups (read_addresses evs))) <= N /\
    Z.of_nat (length evs) <= 2 * N - 1.
Proof.
  intros N_pos Hfit.
  destruct (find_spec N N_pos param mem tr (Z.to_nat N) Hfit) as
    (k & evs & (Hk & _) & Hrun & Hevs & Hlen); [lia|].
  exists (param + k), evs. split_and!; try assumption; try lia.
  apply (distinct_in_interval (param + N)); [lia|].
  apply counter_reads_addresses. exact Hevs.
Qed.

Lemma resolver_safety_witness :
  exists a evs,
    EEPROM_FindCurrentAddress 8 (Z.to_nat 8) 0 (blank 512)
    = Ok a (World (replicate 512 255) ([] ++ evs)) /\
    0 <= a < 0 + 8 /\
    Forall (counter_read 8 0) evs /\
    Z.of_nat (length (remove_dups (read_addresses evs))) <= 8 /\
    Z.of_nat (length evs) <= 2 * 8 - 1.
Proof.
  apply (resolver_safety 8 0 (replicate 512 255) []).
  - lia.
  - unfold group_fits, size. simpl. lia.
Defined.

(** C10, for at least two slots. A changing update writes the data cell
    of the next slot and then its counter; between the two writes the
    resolver still returns the previous slot and the read the previous
    value. *)
Theorem data_written_before_counter (N param data : Z) (mem : list Z) (fuel : nat) :
  2 <= N ->
  group_fits N mem param ->
  (Z.to_nat N <= fuel)%nat ->
  data_before_counter N fuel param data mem.
Proof.
  intros N_two Hfit Hfuel tr old w0 Hread Hdiff.
  assert (N_pos : 1 <= N) by lia.
  destruct (find_spec N N_pos param mem tr fuel Hfit Hfuel) as (k & fevs & Hbnd & Hfind & _).
  destruct (read_at N N_pos param mem tr fuel k Hfit Hfuel Hbnd) as (revs & Hr & _).
  rewrite Hr in Hread. injection Hread as Hold _.
  assert (Hne : dat mem param k <> data) by congruence.
  destruct (write_changing N N_pos param mem tr fuel k data Hfit Hfuel Hbnd Hne)
    as (pre & Hw & Hpre).
  pose proof Hbnd as (Hk & _).
  pose proof (next_slot_range N N_pos k Hk) as Hn.
  exists pre, (param + next_slot N k), (u8 (gen N mem param k + 1)).
  split_and!; try lia; try assumption.
  { rewrite Hw. f_equal. f_equal.
    rewrite replay_reads by exact Hpre. reflexivity. }
  cbn zeta. rewrite replay_reads by exact Hpre.
  cbn [replay fold_left apply_event eeprom trace].
  set (mid := <[Z.to_nat (param + next_slot N k) := u8 data]> mem).
  assert (Hfit' : group_fits N mid param).
  { destruct Hfit as (? & ? & ?). unfold group_fits, mid. rewrite size_insert. lia. }
  destruct Hfit as (Hp0 & Hsz & H16).
  assert (Hbnd' : boundary N mid param k).
  { apply (boundary_agree N param mem); [|exact Hbnd].
    intros j Hj. unfold gen, mid. apply cell_insert_ne; lia. }
  assert (Hdat : dat mid param k = old).
  { rewrite <- Hold. unfold dat, mid. apply cell_insert_ne; [lia|].
    unfold next_slot. destruct (Z.eqb_spec (k + 1) N); lia. }
  destruct (find_at N N_pos param mid (tr ++ pre ++ [EvWrite (param + next_slot N k) (u8 data)])
              fuel k Hfit' Hfuel Hbnd') as (evs' & Hf' & _).
  destruct (read_at N N_pos param mid (tr ++ pre ++ [EvWrite (param + next_slot N k) (u8 data)])
              fuel k Hfit' Hfuel Hbnd') as (evs'' & Hr' & _).
  exists (param + k), fevs, evs', evs''. rewrite Hdat in Hr'.
  replace (param + k - param) with k by lia.
  split_and!; try assumption. reflexivity.
Qed.

Lemma data_written_before_counter_witness :
  let mem := [0x40; 0xFF; 0xFF; 0xFF; 0xFF; 0xFF; 0xFF; 0xFF;
              0x07; 0x00; 0x01; 0x02; 0x03; 0x04; 0x05; 0x06] in
  data_before_counter 8 8 0 0x41 mem /\
  exists w0, EEPROM_ReadWearLeveledByte 8 8 0 (World mem []) = Ok 0x40 w0.
Proof.
  intros mem. split.
  - apply (data_written_before_counter 8 0 0x41).
    + lia.
    + unfold group_fits, size. simpl. lia.
    + simpl. lia.
  - eexists. vm_compute. reflexivity.
Defined.

(** C10 as stated fails for a group of one slot: the data cell that the
    update overwrites is the active one, so that between the two writes
    the read already returns the new value. On the medium 40 00 the
    update to 0x41 writes cell 0, then cell 1; the medium in between is
    41 00. *)
Lemma single_slot_intermediate_read :
  ~ data_before_counter 1 1 0 0x41 [0x40; 0x00] /\
  EEPROM_WriteWearLeveledByte 1 1 0 0x41 (World [0x40; 0x00] [])
  = Ok tt (World [0x41; 0x01]
             [EvRead 1; EvRead 0; EvRead 1; EvWrite 0 0x41; EvWrite 1 0x01]) /\
  EEPROM_ReadWearLeveledByte 1 1 0 (World [0x40; 0x00] [])
  = Ok 0x40 (World [0x40; 0x00] [EvRead 1; EvRead 0]) /\
  EEPROM_ReadWearLeveledByte 1 1 0 (World [0x41; 0x00] [])
  = Ok 0x41 (World [0x41; 0x00] [EvRead 1; EvRead 0]).
Proof.
  assert (Hc : EEPROM_WriteWearLeveledByte 1 1 0 0x41 (World [0x40; 0x00] [])
               = Ok tt (World [0x41; 0x01]
                          ([EvRead 1; EvRead 0; EvRead 1] ++ [EvWrite 0 0x41; EvWrite 1 1])))
    by (vm_compute; reflexivity).
  split; [|split; [exact Hc|split; vm_compute; reflexivity]].
  intros H.
  destruct (H [] 0x40 (World [0x40; 0x00] [EvRead 1; EvRead 0]))
    as (pre & a & g & Hw & _ & _ & slot & evs & evs' & evs'' & _ & _ & _ & Hr).
  - vm_compute. reflexivity.
  - discriminate.
  - rewrite Hc in Hw. injection Hw as _ Htr.
    cbn [app] in Htr.
    change [EvRead 1; EvRead 0; EvRead 1; EvWrite 0 65; EvWrite 1 1]
      with ([EvRead 1; EvRead 0; EvRead 1] ++ [EvWrite 0 65; EvWrite 1 1]) in Htr.
    apply app_inj_2 in Htr as [<- Hlast]; [|reflexivity].
    injection Hlast as <- _ _.
    vm_compute in Hr. discriminate.
Qed.

(** * Further properties *)

(** ** Logical values and their frame *)

Section Stores.

Variable N : Z.
Hypothesis N_pos : 1 <= N.

Lemma single_run_at_agree param mem mem' k :
  (forall j, 0 <= j < N -> gen N mem' param j = gen N mem param j) ->
  single_run_at N mem param k -> single_run_at N mem' param k.
Proof.
  intros Hg (Hb & _ & Hrest).
  pose proof (boundary_agree N param mem mem' k Hg Hb) as Hb'.
  pose proof Hb as (Hk & _).
  split_and!; [exact Hb'| |].
  - intros k' Hk'. exact (boundary_unique N param mem' k' k Hk' Hb').
  - intros j Hj. unfold ascending. rewrite !Hg by lia. apply Hrest. exact Hj.
Qed.

(** A logical value depends on the cells of its group only. *)
Lemma stores_frame param mem mem' v :
  size mem' = size mem ->
  (forall a, param <= a < param + 2 * N -> cell mem' a = cell mem a) ->
  stores N mem param v -> stores N mem' param v.
Proof.
  intros Hsz Hcells (Hfit & Hb & k & Hsr & Hd).
  assert (Hg : forall j, 0 <= j < N -> gen N mem' param j = gen N mem param j)
    by (intros j Hj; unfold gen; apply Hcells; lia).
  pose proof Hsr as ((Hk & _) & _).
  split_and!.
  - unfold group_fits in *. rewrite Hsz. exact Hfit.
  - intros j Hj. rewrite Hg by exact Hj. apply Hb, Hj.
  - exists k. split; [apply (single_run_at_agree param mem); assumption|].
    rewrite <- Hd. unfold dat. apply Hcells. lia.
Qed.

Lemma read_stores param mem tr fuel v :
  stores N mem param v ->
  (Z.to_nat N <= fuel)%nat ->
  exists evs,
    EEPROM_ReadWearLeveledByte N fuel param (World mem tr)
    = Ok v (World mem (tr ++ evs)) /\
    Forall is_read evs.
Proof.
  intros (Hfit & _ & k & (Hb & _) & Hd) Hfuel. rewrite <- Hd.
  apply read_at; assumption.
Qed.

Hypothesis N_byte : N <= 255.

Lemma init_stores param mem tr fuel data :
  group_fits N mem param ->
  (Z.to_nat N <= fuel)%nat ->
  exists mem' evs,
    EEPROM_InitWearLeveledByte N fuel param data (World mem tr)
    = Ok data (World mem' (tr ++ evs)) /\
    stores N mem' param (u8 data) /\
    size mem' = size mem /\
    (forall a, ~ (param <= a < param + 2 * N) -> cell mem' a = cell mem a) /\
    Forall (writes_within param (param + 2 * N)) evs.
Proof.
  intros Hfit Hfuel.
  destruct (init_spec N N_pos N_byte param mem tr fuel data Hfit Hfuel)
    as (mem' & evs & Hrun & Hsz & Hg0 & Hgj & Hd & Hframe & Hevs & _).
  destruct (init_single_run N N_pos N_byte param mem' Hg0 Hgj) as [Hsr Hb].
  exists mem', (evs ++ [EvWrite param (u8 data)]).
  split_and!; try assumption.
  - split_and!; [|exact Hb|exists 0; split; assumption].
    unfold group_fits in *. rewrite Hsz. exact Hfit.
  - intros a Ha. apply Hframe; lia.
  - apply Forall_app. split.
    + eapply Forall_impl; [exact Hevs|]. intros e (a & d & -> & Ha). simpl. lia.
    + constructor; [simpl; lia|constructor].
Qed.

Lemma write_stores param mem tr fuel v data :
  stores N mem param v ->
  is_byte data ->
  (Z.to_nat N <= fuel)%nat ->
  exists mem' evs,
    EEPROM_WriteWearLeveledByte N fuel param data (World mem tr)
    = Ok tt (World mem' (tr ++ evs)) /\
    stores N mem' param data /\
    size mem' = size mem /\
    (forall a, ~ (param <= a < param + 2 * N) -> cell mem' a = cell mem a) /\
    Forall (writes_within param (param + 2 * N)) evs.
Proof.
  intros (Hfit & Hb & k & Hsr & Hd) Hdata Hfuel.
  pose proof Hsr as (Hbnd & _). pose proof Hbnd as (Hk & _).
  destruct (Z.eq_dec (dat mem param k) data) as [Hsame|Hdiff].
  - destruct (write_same N N_pos param mem tr fuel k data Hfit Hfuel Hbnd Hsame)
      as (evs & Hrun & Hevs).
    exists mem, evs. split_and!; try reflexivity; [exact Hrun| |].
    + split_and!; [exact Hfit|exact Hb|exists k; split; assumption].
    + apply reads_write_within, Hevs.
  - destruct (write_changing N N_pos param mem tr fuel k data Hfit Hfuel Hbnd Hdiff)
      as (evs & Hrun & Hevs).
    pose proof (next_slot_range N N_pos k Hk) as Hn.
    destruct (written_single_run N N_pos N_byte param mem k data Hfit Hsr Hb) as [Hsr' Hb'].
    eexists _, _. split_and!; [exact Hrun| | | |].
    + split_and!; [|exact Hb'|].
      * unfold group_fits in *. rewrite size_written. exact Hfit.
      * exists (next_slot N k). split; [exact Hsr'|].
        rewrite dat_written by (assumption || lia).
        rewrite Z.eqb_refl. apply u8_small, Hdata.
    + apply size_written.
    + intros a Ha. apply written_frame; try assumption; lia.
    + apply Forall_app. split; [apply reads_write_within, Hevs|].
      constructor; [simpl; lia|]. constructor; [simpl; lia|constructor].
Qed.

End Stores.

(** ** Loops over the groups of a block *)

Section BlockLoops.

Variable N : Z.
Hypothesis N_pos : 1 <= N.

Lemma in_group_bounds param i a :
  in_group N param i a <->
  group_base N param i <= a < group_base N param i + 2 * N.
Proof. unfold in_group. rewrite group_base_succ. reflexivity. Qed.

Lemma in_group_in_block param len i a :
  0 <= i < len -> in_group N param i a ->
  param <= a < group_base N param len.
Proof.
  intros Hi Ha. apply in_group_bounds in Ha.
  pose proof (group_base_mono N N_pos param 0 i ltac:(lia)) as H0.
  pose proof (group_base_mono N N_pos param (i + 1) len ltac:(lia)) as H1.
  rewrite group_base_succ in H1.
  assert (group_base N param 0 = param) by (unfold group_base; lia).
  lia.
Qed.

(** A loop whose round [i] takes group [i] from [P i] to [Q i] and
    touches no other group takes the whole block from [P] to [Q]. *)
Lemma block_loop param len mem0 (body : Z -> M unit) (P Q : Z -> list Z -> Prop) :
  (forall i m m', 0 <= i < len -> size m' = size m ->
     (forall a, in_group N param i a -> cell m' a = cell m a) -> P i m -> P i m') ->
  (forall i m m', 0 <= i < len -> size m' = size m ->
     (forall a, in_group N param i a -> cell m' a = cell m a) -> Q i m -> Q i m') ->
  (forall i m tr, 0 <= i < len -> size m = size mem0 -> P i m ->
     exists m' evs,
       body i (World m tr) = Ok tt (World m' (tr ++ evs)) /\
       size m' = size m /\
       (forall a, ~ in_group N param i a -> cell m' a = cell m a) /\
       Q i m' /\
       Forall (writes_within (group_base N param i) (group_base N param (i + 1))) evs) ->
  forall count i0 m tr,
    0 <= i0 -> i0 + Z.of_nat count = len ->
    size m = size mem0 ->
    (forall a, ~ (param <= a < group_base N param len) -> cell m a = cell mem0 a) ->
    (forall i, 0 <= i < i0 -> Q i m) ->
    (forall i, i0 <= i < len -> P i m) ->
    exists m' evs,
      for_upto count i0 body (World m tr) = Ok tt (World m' (tr ++ evs)) /\
      size m' = size mem0 /\
      (forall a, ~ (param <= a < group_base N param len) -> cell m' a = cell mem0 a) /\
      (forall i, 0 <= i < len -> Q i m') /\
      Forall (writes_within param (group_base N param len)) evs.
Proof.
  intros HP HQ Hstep.
  induction count as [|count IH]; intros i0 m tr Hi0 Hlen Hsz Hout Hdone Htodo.
  - exists m, []. rewrite app_nil_r.
    split_and!; try assumption; [reflexivity| |constructor].
    intros i Hi. apply Hdone. lia.
  - destruct (Hstep i0 m tr ltac:(lia) Hsz (Htodo i0 ltac:(lia)))
      as (m1 & evs1 & Hrun1 & Hsz1 & Hframe1 & Hq & Hevs1).
    assert (Hother : forall i, i <> i0 ->
              forall a, in_group N param i a -> cell m1 a = cell m a).
    { intros i Hne a Ha. apply Hframe1.
      exact (groups_disjoint N N_pos param i i0 a Hne Ha). }
    destruct (IH (i0 + 1) m1 (tr ++ evs1)) as (m' & evs & Hrun & Hsz' & Hout' & Hq' & Hevs);
      [lia|lia|congruence| | | |].
    + intros a Ha. rewrite Hframe1; [apply Hout, Ha|].
      intros Hin. apply Ha. exact (in_group_in_block param len i0 a ltac:(lia) Hin).
    + intros i Hi. destruct (Z.eq_dec i i0) as [->|Hne]; [exact Hq|].
      apply (HQ i m m1); [lia|exact Hsz1|apply Hother, Hne|apply Hdone; lia].
    + intros i Hi. apply (HP i m m1); [lia|exact Hsz1|apply Hother; lia|apply Htodo; lia].
    + exists m', (evs1 ++ evs). cbn [for_upto]. unfold bind. rewrite Hrun1, Hrun, app_assoc.
      split_and!; try assumption; [reflexivity|].
      apply Forall_app. split; [|exact Hevs].
      eapply Forall_impl; [exact Hevs1|]. intros [a|a d] He; [exact I|]. simpl in *.
      apply (in_group_in_block param len i0 a ltac:(lia)). exact He.
Qed.

End BlockLoops.

(** ** The block engine on initialized blocks *)

Section BlockEngine.

Variable N : Z.
Hypothesis N_pos : 1 <= N.

Lemma group_fits_size param mem mem' :
  size mem' = size mem -> group_fits N mem param -> group_fits N mem' param.
Proof. unfold group_fits. intros ->. tauto. Qed.

Lemma block_stores_of param len data mem :
  Z.of_nat (length data) = len ->
  (forall i, 0 <= i < len ->
     forall v, data !! Z.to_nat i = Some v -> stores N mem (group_base N param i) v) ->
  block_stores N mem param data.
Proof.
  intros Hlen H i v Hv. apply (H (Z.of_nat i)).
  - apply lookup_lt_Some in Hv. lia.
  - rewrite Nat2Z.id. exact Hv.
Qed.

Lemma stores_in_group param i mem mem' v :
  size mem' = size mem ->
  (forall a, in_group N param i a -> cell mem' a = cell mem a) ->
  stores N mem (group_base N param i) v -> stores N mem' (group_base N param i) v.
Proof.
  intros Hsz Hcells. apply (stores_frame N N_pos); [exact Hsz|].
  intros a Ha. apply Hcells. apply in_group_bounds. exact Ha.
Qed.

Lemma read_block_stores param mem fuel vs :
  block_stores N mem param vs ->
  (Z.to_nat N <= fuel)%nat ->
  forall count i0 tr,
    (i0 + count = length vs)%nat ->
    exists evs,
      read_block_loop N fuel count (Z.of_nat i0) param (World mem tr)
      = Ok (drop i0 vs) (World mem (tr ++ evs)) /\
      Forall is_read evs.
Proof.
  intros Hst Hfuel. induction count as [|count IH]; intros i0 tr Hlen.
  - exists []. rewrite app_nil_r, drop_ge by lia. split; [reflexivity|constructor].
  - destruct (lookup_lt_is_Some_2 vs i0 ltac:(lia)) as [v Hv].
    pose proof (Hst i0 v Hv) as Hs. pose proof Hs as ((Hp0 & _ & H16) & _).
    destruct (read_stores N N_pos _ mem tr fuel v Hs Hfuel) as (evs1 & Hr & Hevs1).
    destruct (IH (S i0) (tr ++ evs1) ltac:(lia)) as (evs & Hrest & Hevs).
    exists (evs1 ++ evs). cbn [read_block_loop]. unfold bind at 1.
    fold (group_base N param (Z.of_nat i0)).
    rewrite (u16_small (group_base N param (Z.of_nat i0))) by lia.
    rewrite Hr. unfold bind, ret.
    replace (Z.of_nat i0 + 1) with (Z.of_nat (S i0)) by lia.
    rewrite Hrest, app_assoc, (drop_S vs v i0 Hv).
    split; [reflexivity|]. apply Forall_app. split; assumption.
Qed.

Hypothesis N_byte : N <= 255.

Lemma init_block_spec param len data mem tr fuel :
  block_fits N mem param len ->
  Z.of_nat (length data) = len ->
  Forall is_byte data ->
  (Z.to_nat N <= fuel)%nat ->
  exists mem' evs,
    EEPROM_InitWearLeveledBlock N fuel param data len (World mem tr)
    = Ok tt (World mem' (tr ++ evs)) /\
    size mem' = size mem /\
    (forall a, ~ (param <= a < group_base N param len) -> cell mem' a = cell mem a) /\
    block_stores N mem' param data /\
    Forall (writes_within param (group_base N param len)) evs.
Proof.
  intros Hfit Hlen Hbytes Hfuel.
  destruct (block_loop N N_pos param len mem
              (fun i => let* d := buffer_get data i in
                        let* _ := EEPROM_InitWearLeveledByte N fuel
                                    (u16 (param + i * (N + N))) d in
                        ret tt)
              (fun _ _ => True)
              (fun i m => forall v, data !! Z.to_nat i = Some v ->
                                    stores N m (group_base N param i) v))
    with (count := Z.to_nat len) (i0 := 0) (m := mem) (tr := tr)
    as (mem' & evs & Hrun & Hsz & Hout & Hq & Hevs).
  - trivial.
  - intros i m m' Hi Hsz Hcells Hq v Hv.
    apply (stores_in_group param i m m' v Hsz Hcells), Hq, Hv.
  - intros i m tr' Hi Hsz _.
    destruct (block_group_fits N N_pos mem param len i Hfit Hi) as [Hg Hu].
    destruct (lookup_lt_is_Some_2 data (Z.to_nat i) ltac:(lia)) as [d Hd].
    destruct (init_stores N N_pos N_byte _ m tr' fuel d
                (group_fits_size _ mem m Hsz Hg) Hfuel)
      as (m' & evs & Hrun & Hst & Hsz' & Hframe & Hevs).
    exists m', evs. unfold bind at 1. unfold buffer_get. rewrite Hd.
    unfold bind at 1. rewrite Hu, Hrun. unfold ret.
    split_and!; try assumption; [reflexivity| | |].
    + intros a Ha. apply Hframe. intros Hin. apply Ha, in_group_bounds, Hin.
    + intros v Hv. assert (v = d) as -> by congruence.
      rewrite u8_small in Hst; [exact Hst|].
      exact (Forall_lookup_1 _ _ _ _ Hbytes Hd).
    + rewrite group_base_succ. exact Hevs.
  - lia.
  - destruct Hfit as (_ & Hl & _). lia.
  - reflexivity.
  - intros; reflexivity.
  - intros i Hi. lia.
  - trivial.
  - exists mem', evs. split_and!; try assumption.
    apply (block_stores_of param len); assumption.
Qed.

Lemma write_block_spec param len old data mem tr fuel :
  block_fits N mem param len ->
  block_stores N mem param old ->
  Z.of_nat (length old) = len ->
  Z.of_nat (length data) = len ->
  Forall is_byte data ->
  (Z.to_nat N <= fuel)%nat ->
  exists mem' evs,
    EEPROM_WriteWearLeveledBlock N fuel param data len (World mem tr)
    = Ok tt (World mem' (tr ++ evs)) /\
    size mem' = size mem /\
    (forall a, ~ (param <= a < group_base N param len) -> cell mem' a = cell mem a) /\
    block_stores N mem' param data /\
    Forall (writes_within param (group_base N param len)) evs.
Proof.
  intros Hfit Hold Hlen0 Hlen Hbytes Hfuel.
  destruct (block_loop N N_pos param len mem
              (fun i => let* d := buffer_get data i in
                        EEPROM_WriteWearLeveledByte N fuel (u16 (param + i * (N + N))) d)
              (fun i m => exists v, stores N m (group_base N param i) v)
              (fun i m => forall v, data !! Z.to_nat i = Some v ->
                                    stores N m (group_base N param i) v))
    with (count := Z.to_nat len) (i0 := 0) (m := mem) (tr := tr)
    as (mem' & evs & Hrun & Hsz & Hout & Hq & Hevs).
  - intros i m m' Hi Hsz Hcells (v & Hv). exists v.
    exact (stores_in_group param i m m' v Hsz Hcells Hv).
  - intros i m m' Hi Hsz Hcells Hq v Hv.
    apply (stores_in_group param i m m' v Hsz Hcells), Hq, Hv.
  - intros i m tr' Hi Hsz (v0 & Hst0).
    destruct (block_group_fits N N_pos mem param len i Hfit Hi) as [Hg Hu].
    destruct (lookup_lt_is_Some_2 data (Z.to_nat i) ltac:(lia)) as [d Hd].
    pose proof (Forall_lookup_1 _ _ _ _ Hbytes Hd) as Hbyte.
    destruct (write_stores N N_pos N_byte _ m tr' fuel v0 d Hst0 Hbyte Hfuel)
      as (m' & evs & Hrun & Hst & Hsz' & Hframe & Hevs).
    exists m', evs. unfold bind at 1. unfold buffer_get. rewrite Hd, Hu, Hrun.
    split_and!; try assumption; [reflexivity| | |].
    + intros a Ha. apply Hframe. intros Hin. apply Ha, in_group_bounds, Hin.
    + intros v Hv. assert (v = d) as -> by congruence. exact Hst.
    + rewrite group_base_succ. exact Hevs.
  - lia.
  - destruct Hfit as (_ & Hl & _). lia.
  - reflexivity.
  - intros; reflexivity.
  - intros i Hi. lia.
  - intros i Hi.
    destruct (lookup_lt_is_Some_2 old (Z.to_nat i) ltac:(lia)) as [v Hv].
    exists v. pose proof (Hold _ _ Hv) as Hs. rewrite Z2Nat.id in Hs by lia. exact Hs.
  - exists mem', evs. split_and!; try assumption.
    apply (block_stores_of param len); assumption.
Qed.

End BlockEngine.

(** ** Reads on any content *)

Section Reads.

Variable N : Z.
Hypothesis N_pos : 1 <= N.

Lemma counter_reads_within param evs :
  Forall (counter_read N param) evs ->
  Forall (reads_within param (param + 2 * N)) evs.
Proof.
  intros H. eapply Forall_impl; [exact H|]. intros e (a & -> & Ha). simpl. lia.
Qed.

Lemma reads_within_weaken lo hi lo' hi' evs :
  lo' <= lo -> hi <= hi' ->
  Forall (reads_within lo hi) evs -> Forall (reads_within lo' hi') evs.
Proof.
  intros Hlo Hhi H. eapply Forall_impl; [exact H|].
  intros [a|a d] He; simpl in *; [lia|exact He].
Qed.

Lemma read_any param mem tr fuel :
  group_fits N mem param ->
  (Z.to_nat N <= fuel)%nat ->
  exists k evs,
    boundary N mem param k /\
    EEPROM_ReadWearLeveledByte N fuel param (World mem tr)
    = Ok (dat mem param k) (World mem (tr ++ evs)) /\
    Forall (reads_within param (param + 2 * N)) evs.
Proof.
  intros Hfit Hfuel.
  destruct (find_spec N N_pos param mem tr fuel Hfit Hfuel) as (k & evs & Hbnd & Hf & Hevs & _).
  exists k, (evs ++ [EvRead (param + k)]).
  destruct Hfit as (Hp0 & Hsz & H16). pose proof Hbnd as (Hk & _).
  split_and!; [exact Hbnd| |].
  - unfold EEPROM_ReadWearLeveledByte, bind. rewrite Hf.
    rewrite EEPROM_Read_ok by lia. rewrite app_assoc. reflexivity.
  - apply Forall_app. split; [apply counter_reads_within, Hevs|].
    constructor; [simpl; lia|constructor].
Qed.

(** What a read returns depends on the cells of the group only. *)
Lemma read_local param mem mem' tr tr' fuel v w0 :
  group_fits N mem param ->
  (Z.to_nat N <= fuel)%nat ->
  size mem' = size mem ->
  (forall a, param <= a < param + 2 * N -> cell mem' a = cell mem a) ->
  EEPROM_ReadWearLeveledByte N fuel param (World mem tr) = Ok v w0 ->
  exists evs,
    EEPROM_ReadWearLeveledByte N fuel param (World mem' tr')
    = Ok v (World mem' (tr' ++ evs)).
Proof.
  intros Hfit Hfuel Hsz Hcells Hread.
  destruct (read_any param mem tr fuel Hfit Hfuel) as (k & evs & Hbnd & Hr & _).
  rewrite Hr in Hread. injection Hread as <- _.
  assert (Hbnd' : boundary N mem' param k).
  { apply (boundary_agree N param mem); [|exact Hbnd].
    intros j Hj. unfold gen. apply Hcells. lia. }
  assert (Hfit' : group_fits N mem' param)
    by (unfold group_fits in *; rewrite Hsz; exact Hfit).
  destruct (read_at N N_pos param mem' tr' fuel k Hfit' Hfuel Hbnd') as (evs' & Hr' & _).
  exists evs'. rewrite Hr'. f_equal. unfold dat. apply Hcells.
  destruct Hbnd as (Hk & _). lia.
Qed.

Lemma read_block_any param len mem fuel :
  block_fits N mem param len ->
  (Z.to_nat N <= fuel)%nat ->
  forall count i0 tr,
    0 <= i0 -> i0 + Z.of_nat count <= len ->
    exists vs evs,
      read_block_loop N fuel count i0 param (World mem tr)
      = Ok vs (World mem (tr ++ evs)) /\
      length vs = count /\
      Forall (reads_within param (group_base N param len)) evs.
Proof.
  intros Hfit Hfuel.
  induction count as [|count IH]; intros i0 tr Hi0 Hlen.
  - exists [], []. rewrite app_nil_r. split_and!; [reflexivity|reflexivity|constructor].
  - destruct (block_group_fits N N_pos mem param len i0 Hfit ltac:(lia)) as [Hg Hu].
    destruct (read_any _ mem tr fuel Hg Hfuel) as (k & evs1 & _ & Hr & Hevs1).
    destruct (IH (i0 + 1) (tr ++ evs1) ltac:(lia) ltac:(lia)) as (vs & evs & Hrest & Hl & Hevs).
    eexists (_ :: vs), (evs1 ++ evs).
    cbn [read_block_loop]. unfold bind at 1. rewrite Hu, Hr.
    unfold bind, ret. rewrite Hrest, app_assoc.
    split_and!; [reflexivity|simpl; lia|].
    apply Forall_app. split; [|exact Hevs].
    pose proof (in_group_in_block N N_pos param len i0 (group_base N param i0) ltac:(lia)) as Hlo.
    pose proof (in_group_in_block N N_pos param len i0 (group_base N param i0 + 2 * N - 1)
                  ltac:(lia)) as Hhi.
    rewrite in_group_bounds in Hlo, Hhi.
    apply (reads_within_weaken (group_base N param i0) (group_base N param i0 + 2 * N));
      [lia|lia|exact Hevs1].
Qed.

End Reads.

(** ** Sequences of block writes, and block writes on any content *)

Section BlockSequences.

Variable N : Z.
Hypothesis N_pos : 1 <= N.

Lemma last_cons_default {A} (l : list A) (a d : A) :
  List.last (a :: l) d = List.last l a.
Proof.
  revert a d. induction l as [|c l IH]; intros a d; [reflexivity|].
  change (List.last (a :: c :: l) d) with (List.last (c :: l) d).
  rewrite !IH. reflexivity.
Qed.

Lemma block_fits_size param len mem mem' :
  size mem' = size mem -> block_fits N mem param len -> block_fits N mem' param len.
Proof. unfold block_fits. intros ->. tauto. Qed.


(** A block write of the block as it reads back only reads. *)
Lemma write_block_same param len data mem fuel :
  block_fits N mem param len ->
  (Z.to_nat N <= fuel)%nat ->
  (forall i, 0 <= i < len ->
     exists k, boundary N mem (group_base N param i) k /\
               data !! Z.to_nat i = Some (dat mem (group_base N param i) k)) ->
  forall count i0 tr,
    0 <= i0 -> i0 + Z.of_nat count <= len ->
    exists evs,
      for_upto count i0
        (fun i => let* d := buffer_get data i in
                  EEPROM_WriteWearLeveledByte N fuel (u16 (param + i * (N + N))) d)
        (World mem tr)
      = Ok tt (World mem (tr ++ evs)) /\
      Forall is_read evs.
Proof.
  intros Hfit Hfuel Hsame.
  induction count as [|count IH]; intros i0 tr Hi0 Hlen.
  - exists []. rewrite app_nil_r. split; [reflexivity|constructor].
  - destruct (block_group_fits N N_pos mem param len i0 Hfit ltac:(lia)) as [Hg Hu].
    destruct (Hsame i0 ltac:(lia)) as (k & Hbnd & Hd).
    destruct (write_same N N_pos _ mem tr fuel k _ Hg Hfuel Hbnd eq_refl)
      as (evs1 & Hw & Hevs1).
    destruct (IH (i0 + 1) (tr ++ evs1) ltac:(lia) ltac:(lia)) as (evs & Hrun & Hevs).
    exists (evs1 ++ evs). cbn [for_upto]. unfold bind at 1. unfold bind at 1.
    unfold buffer_get at 1. rewrite Hd, Hu, Hw, Hrun, app_assoc.
    split; [reflexivity|]. apply Forall_app. split; assumption.
Qed.

Hypothesis N_byte : N <= 255.


Lemma block_updates_spec param len fuel bufs :
  (Z.to_nat N <= fuel)%nat ->
  Forall (fun b => Z.of_nat (length b) = len /\ Forall is_byte b) bufs ->
  forall old mem tr,
    block_fits N mem param len ->
    block_stores N mem param old ->
    Z.of_nat (length old) = len ->
    exists mem' evs,
      block_updates N fuel param bufs len (World mem tr) = Ok tt (World mem' (tr ++ evs)) /\
      size mem' = size mem /\
      block_stores N mem' param (List.last bufs old) /\
      Z.of_nat (length (List.last bufs old)) = len.
Proof.
  intros Hfuel Hbufs. induction Hbufs as [|b bufs [Hlb Hbb] _ IH]; intros old mem tr Hfit Hst Hlo.
  - exists mem, []. rewrite app_nil_r. split_and!; try assumption; reflexivity.
  - destruct (write_block_spec N N_pos N_byte param len old b mem tr fuel
                Hfit Hst Hlo Hlb Hbb Hfuel)
      as (m1 & evs1 & Hw & Hsz1 & _ & Hst1 & _).
    destruct (IH b m1 (tr ++ evs1) (block_fits_size param len mem m1 Hsz1 Hfit) Hst1 Hlb)
      as (mem' & evs & Hrun & Hsz & Hst' & Hl').
    exists mem', (evs1 ++ evs). cbn [block_updates]. unfold bind. rewrite Hw, Hrun, app_assoc.
    rewrite last_cons_default. split_and!; try assumption; [reflexivity|congruence].
Qed.

End BlockSequences.

(** ** The cells that updates write *)

Lemma write_addresses_app evs evs' :
  write_addresses (evs ++ evs') = write_addresses evs ++ write_addresses evs'.
Proof.
  induction evs as [|[a|a d] evs IH]; simpl; [reflexivity|exact IH|].
  rewrite IH. reflexivity.
Qed.

Lemma write_addresses_reads evs :
  Forall is_read evs -> write_addresses evs = [].
Proof.
  induction 1 as [|[a|a d] evs He _ IH]; simpl; [reflexivity|exact IH|destruct He].
Qed.

Section Wear.

Variable N : Z.
Hypothesis N_pos : 1 <= N.

Lemma ring_writes_app param k n n' :
  exists k',
    ring_writes N param k (n + n') = ring_writes N param k n ++ ring_writes N param k' n' /\
    (0 <= k < N -> k' = (k + Z.of_nat n) mod N).
Proof.
  revert k. induction n as [|n IH]; intros k.
  - exists k. split; [reflexivity|]. intros Hk. simpl. rewrite Z.add_0_r, Z.mod_small; lia.
  - destruct (IH (next_slot N k)) as (k' & Happ & Hk').
    exists k'. split.
    + cbn [Nat.add ring_writes app]. rewrite Happ. reflexivity.
    + intros Hk. rewrite Hk' by (apply (next_slot_range N N_pos), Hk).
      rewrite (next_slot_mod N k Hk), Zplus_mod_idemp_l. f_equal. lia.
Qed.

Lemma ring_writes_elem param k n a :
  0 <= k < N ->
  a ∈ ring_writes N param k n ->
  exists i, 1 <= i <= Z.of_nat n /\
    (a = param + (k + i) mod N \/ a = param + (k + i) mod N + N).
Proof.
  revert k. induction n as [|n IH]; intros k Hk Ha; [inversion Ha|].
  cbn [ring_writes] in Ha. rewrite (next_slot_mod N k Hk) in Ha.
  apply elem_of_cons in Ha as [->|Ha]; [exists 1; split; [lia|left; reflexivity]|].
  apply elem_of_cons in Ha as [->|Ha]; [exists 1; split; [lia|right; reflexivity]|].
  apply IH in Ha as (i & Hi & Ha); [|apply Z.mod_pos_bound; lia].
  exists (i + 1). split; [lia|].
  rewrite Zplus_mod_idemp_l in Ha.
  replace (k + (i + 1)) with (k + 1 + i) by lia. exact Ha.
Qed.

Lemma ring_writes_length param k n : length (ring_writes N param k n) = (2 * n)%nat.
Proof.
  revert k. induction n as [|n IH]; intros k; [reflexivity|].
  cbn [ring_writes length]. rewrite IH. lia.
Qed.

Lemma ring_writes_NoDup param k n :
  0 <= k < N -> Z.of_nat n <= N -> NoDup (ring_writes N param k n).
Proof.
  revert k. induction n as [|n IH]; intros k Hk Hn; [constructor|].
  cbn [ring_writes].
  pose proof (next_slot_range N N_pos k Hk) as Hn'.
  assert (Hfresh : forall i, 1 <= i <= Z.of_nat n -> (next_slot N k + i) mod N <> next_slot N k).
  { intros i Hi H.
    apply (mod_shift_neq N N_pos (next_slot N k) i); [lia|].
    rewrite H, Z.mod_small by lia. reflexivity. }
  assert (Hm : forall i, 0 <= (next_slot N k + i) mod N < N)
    by (intros; apply Z.mod_pos_bound; lia).
  constructor; [|constructor; [|apply IH; [exact Hn'|lia]]].
  - intros Hin. apply elem_of_cons in Hin as [Heq|Hin]; [lia|].
    apply (ring_writes_elem param _ n _ Hn') in Hin as (i & Hi & [E|E]).
    + apply (Hfresh i Hi). lia.
    + specialize (Hm i). lia.
  - intros Hin.
    apply (ring_writes_elem param _ n _ Hn') in Hin as (i & Hi & [E|E]).
    + specialize (Hm i). lia.
    + apply (Hfresh i Hi). lia.
Qed.

(** One round of the ring writes every cell of the group once. *)
Lemma ring_writes_round param k :
  0 <= k < N ->
  ring_writes N param k (Z.to_nat N) ≡ₚ seqZ param (2 * N).
Proof.
  intros Hk. apply submseteq_length_Permutation.
  - apply NoDup_submseteq; [apply ring_writes_NoDup; [exact Hk|lia]|].
    intros a Ha. apply (ring_writes_elem param k _ a Hk) in Ha as (i & Hi & E).
    pose proof (Z.mod_pos_bound (k + i) N ltac:(lia)).
    apply elem_of_seqZ. lia.
  - rewrite ring_writes_length, length_seqZ. lia.
Qed.

(** [m] rounds write every cell of the group [m] times. *)
Lemma ring_writes_rounds param k m a :
  0 <= k < N ->
  param <= a < param + 2 * N ->
  count_occ Z.eq_dec (ring_writes N param k (m * Z.to_nat N)) a = m.
Proof.
  intros Hk Ha. induction m as [|m IH]; [reflexivity|].
  cbn [Nat.mul].
  destruct (ring_writes_app param k (Z.to_nat N) (m * Z.to_nat N)) as (k' & -> & Hk').
  rewrite Hk' by exact Hk.
  rewrite Z2Nat.id by lia.
  replace (k + N) with (k + 1 * N) by lia.
  rewrite Z_mod_plus_full, Z.mod_small by lia.
  rewrite count_occ_app, IH.
  rewrite (proj1 (Permutation_count_occ Z.eq_dec _ _) (ring_writes_round param k Hk)).
  assert (H1 : count_occ Z.eq_dec (seqZ param (2 * N)) a = 1%nat).
  { apply NoDup_count_occ'; [apply NoDup_ListNoDup, NoDup_seqZ|].
    apply list_elem_of_In, elem_of_seqZ. lia. }
  rewrite H1. reflexivity.
Qed.

Hypothesis N_byte : N <= 255.

Lemma changing_updates_writes param fuel vs :
  (Z.to_nat N <= fuel)%nat ->
  Forall is_byte vs ->
  forall k w,
    initialized N param k w ->
    changing (dat (eeprom w) param k) vs ->
    exists mem' evs,
      updates N fuel param vs w = Ok tt (World mem' (trace w ++ evs)) /\
      write_addresses evs = ring_writes N param k (length vs).
Proof.
  intros Hfuel Hvs. induction Hvs as [|v vs Hv _ IH]; intros k w Hinit Hch.
  - destruct w as [mem tr]. exists mem, []. rewrite app_nil_r. split; reflexivity.
  - destruct Hch as [Hne Hch].
    destruct (write_initialized N N_pos N_byte param k w fuel v Hinit Hfuel Hv)
      as (w1 & Hw & Hinit1 & Hd).
    unfold slot_after in *.
    destruct (Z.eqb_spec (dat (eeprom w) param k) v) as [E|_]; [congruence|].
    destruct w as [mem tr]. cbn [eeprom trace] in *.
    destruct Hinit as (Hfit & (Hbnd & _) & _).
    destruct (write_changing N N_pos param mem tr fuel k v Hfit Hfuel Hbnd ltac:(congruence))
      as (evs1 & Hw' & Hevs1).
    rewrite Hw' in Hw. injection Hw as <-. cbn [eeprom trace] in *.
    rewrite <- Hd in Hch.
    destruct (IH _ _ Hinit1 Hch) as (mem' & evs & Hrun & Hwr).
    cbn [trace] in Hrun.
    eexists mem', (evs1 ++ [_; _] ++ evs).
    cbn [updates]. unfold bind. rewrite Hw', Hrun. split.
    + rewrite <- !app_assoc. reflexivity.
    + rewrite !write_addresses_app, (write_addresses_reads evs1 Hevs1), Hwr. reflexivity.
Qed.

End Wear.

(** ** The initializer: its accesses, and factors it cannot count to *)

Lemma init_loop_large_never_returns N param fuel :
  256 <= N ->
  forall i w w', 0 <= i < 256 -> init_loop N fuel i param w <> Ok tt w'.
Proof.
  intros HN.
  induction fuel as [|fuel IH]; intros i w w' Hi; cbn [init_loop];
    destruct (Z.ltb_spec i N) as [_|Hge]; try lia.
  - discriminate.
  - unfold bind.
    destruct (EEPROM_Write (i + param + N) (i - 1) w) as [[] w1| |w1];
      [|discriminate|discriminate].
    apply IH. apply (u8_is_byte (i + 1)).
Qed.

Lemma replay_cons e evs mem : replay (e :: evs) mem = replay evs (apply_event mem e).
Proof. reflexivity. Qed.

Lemma replay_app evs evs' mem : replay (evs ++ evs') mem = replay evs' (replay evs mem).
Proof. unfold replay. apply fold_left_app. Qed.

Lemma init_loop_events N param :
  N <= 255 -> 0 <= param ->
  forall fuel i mem tr,
    1 <= i <= N ->
    param + 2 * N <= size mem ->
    (Z.to_nat (N - i) <= fuel)%nat ->
    init_loop N fuel i param (World mem tr)
    = Ok tt (World (replay (map (fun j => EvWrite (j + param + N) (j - 1)) (seqZ i (N - i))) mem)
               (tr ++ map (fun j => EvWrite (j + param + N) (j - 1)) (seqZ i (N - i)))).
Proof.
  intros N_byte Hp0.
  induction fuel as [|fuel IH]; intros i mem tr Hi Hsz Hfuel.
  - assert (i = N) as -> by lia. cbn [init_loop]. rewrite Z.ltb_irrefl, Z.sub_diag.
    simpl. rewrite app_nil_r. reflexivity.
  - cbn [init_loop]. destruct (Z.ltb_spec i N) as [Hlt|Hge].
    + unfold bind at 1. rewrite EEPROM_Write_ok by lia.
      rewrite (u8_small (i + 1)), (u8_small (i - 1)) by lia.
      rewrite IH by (rewrite ?size_insert; lia).
      rewrite (seqZ_cons i (N - i)) by lia. cbn [map].
      replace (Z.pred (N - i)) with (N - (i + 1)) by lia.
      replace (Z.succ i) with (i + 1) by lia.
      rewrite replay_cons. cbn [apply_event]. rewrite <- app_assoc. reflexivity.
    + assert (i = N) as -> by lia. rewrite Z.sub_diag.
      simpl. rewrite app_nil_r. reflexivity.
Qed.

Lemma bind_ok {A B} (m : M A) (k : A -> M B) w a w' :
  m w = Ok a w' -> bind m k w = k a w'.
Proof. intros H. unfold bind. rewrite H. reflexivity. Qed.

(** ** A group that was never initialized *)

Section Erased.

Variable N : Z.
Hypothesis N_pos : 1 <= N.
Hypothesis N_byte : N <= 255.

Lemma erased_is_run mem param :
  erased N mem param -> erased_run N mem param 0 /\ dat mem param 0 = 255.
Proof.
  intros He. unfold erased_run, gen, dat. split_and!; try lia.
  - apply He. lia.
  - intros j Hj. apply He. lia.
  - apply He. lia.
Qed.

Lemma erased_run_ascending mem param m j :
  erased_run N mem param m -> 0 <= j < m -> ascending N mem param j.
Proof.
  intros (Hm & H0 & Hlow & _) Hj. unfold ascending.
  rewrite (Hlow (j + 1)) by lia.
  destruct (Z.eq_dec j 0) as [->|Hne].
  - rewrite H0. reflexivity.
  - rewrite (Hlow j) by lia. unfold u8. rewrite Z.mod_small by lia. lia.
Qed.

Lemma erased_run_boundary mem param m :
  erased_run N mem param m -> boundary N mem param m.
Proof.
  intros Hr. pose proof Hr as (Hm & H0 & Hlow & Hhigh).
  split_and!; [lia|lia| |].
  - intros j Hj. exact (erased_run_ascending mem param m j Hr Hj).
  - destruct (Z.eq_dec m (N - 1)) as [->|Hne]; [left; reflexivity|right].
    unfold ascending. rewrite (Hhigh (m + 1)) by lia.
    destruct (Z.eq_dec m 0) as [->|Hne0].
    + rewrite H0. discriminate.
    + rewrite (Hlow m) by lia. unfold u8. rewrite Z.mod_small by lia. lia.
Qed.

Lemma erased_run_full mem param v :
  group_fits N mem param ->
  erased_run N mem param (N - 1) -> dat mem param (N - 1) = v ->
  stores N mem param v.
Proof.
  intros Hfit Hr Hv. pose proof Hr as (Hm & H0 & Hlow & Hhigh).
  pose proof (erased_run_boundary mem param (N - 1) Hr) as Hb.
  split_and!; [exact Hfit| |].
  - intros j Hj. unfold is_byte. destruct (Z.eq_dec j 0) as [->|Hne].
    + rewrite H0. lia.
    + rewrite (Hlow j) by lia. lia.
  - exists (N - 1). split; [|exact Hv]. split_and!.
    + exact Hb.
    + intros k' Hk'. exact (boundary_unique N param mem k' (N - 1) Hk' Hb).
    + intros j Hj. lia.
Qed.

Lemma erased_run_write mem param m data :
  group_fits N mem param ->
  erased_run N mem param m -> m < N - 1 ->
  erased_run N (written N param mem m data) param (m + 1) /\
  dat (written N param mem m data) param (m + 1) = u8 data.
Proof.
  intros Hfit (Hm & H0 & Hlow & Hhigh) Hlt.
  assert (Hnext : next_slot N m = m + 1).
  { unfold next_slot. destruct (Z.eqb_spec (m + 1) N); [lia|reflexivity]. }
  assert (Hg : forall j, 0 <= j < N ->
             gen N (written N param mem m data) param j
             = if j =? m + 1 then u8 (gen N mem param m + 1) else gen N mem param j).
  { intros j Hj. rewrite gen_written by (assumption || lia). rewrite Hnext. reflexivity. }
  assert (Hm1 : u8 (gen N mem param m + 1) = m).
  { destruct (Z.eq_dec m 0) as [->|Hne].
    - rewrite H0. reflexivity.
    - rewrite (Hlow m) by lia. unfold u8. rewrite Z.mod_small by lia. lia. }
  split; [unfold erased_run; split_and!|].
  - lia.
  - lia.
  - rewrite Hg by lia. destruct (Z.eqb_spec 0 (m + 1)); [lia|exact H0].
  - intros j Hj. rewrite Hg by lia. destruct (Z.eqb_spec j (m + 1)) as [->|Hne].
    + rewrite Hm1. lia.
    + apply Hlow. lia.
  - intros j Hj. rewrite Hg by lia. destruct (Z.eqb_spec j (m + 1)); [lia|].
    apply Hhigh. lia.
  - rewrite dat_written by (assumption || lia). rewrite Hnext, Z.eqb_refl. reflexivity.
Qed.

(** One update of a group that is either still filling up from the
    erased state or holds a value in the sense of [stores]. *)
Lemma erased_step param mem tr fuel v data :
  group_fits N mem param ->
  (exists m, erased_run N mem param m /\ dat mem param m = v) \/ stores N mem param v ->
  is_byte data ->
  (Z.to_nat N <= fuel)%nat ->
  exists mem' evs,
    EEPROM_WriteWearLeveledByte N fuel param data (World mem tr)
    = Ok tt (World mem' (tr ++ evs)) /\
    size mem' = size mem /\
    (forall a, ~ (param <= a < param + 2 * N) -> cell mem' a = cell mem a) /\
    ((exists m, erased_run N mem' param m /\ dat mem' param m = data)
     \/ stores N mem' param data).
Proof.
  intros Hfit Hst Hdata Hfuel.
  assert (Hfull : stores N mem param v ->
    exists mem' evs,
      EEPROM_WriteWearLeveledByte N fuel param data (World mem tr)
      = Ok tt (World mem' (tr ++ evs)) /\
      size mem' = size mem /\
      (forall a, ~ (param <= a < param + 2 * N) -> cell mem' a = cell mem a) /\
      ((exists m, erased_run N mem' param m /\ dat mem' param m = data)
       \/ stores N mem' param data)).
  { intros Hs.
    destruct (write_stores N N_pos N_byte param mem tr fuel v data Hs Hdata Hfuel)
      as (mem' & evs & Hw & Hs' & Hsz & Hfr & _).
    exists mem', evs. split_and!; [exact Hw|exact Hsz|exact Hfr|right; exact Hs']. }
  destruct Hst as [(m & Hr & Hv)|Hs]; [|exact (Hfull Hs)].
  pose proof Hr as (Hm & _).
  destruct (Z.eq_dec m (N - 1)) as [->|Hne].
  { exact (Hfull (erased_run_full mem param v Hfit Hr Hv)). }
  pose proof (erased_run_boundary mem param m Hr) as Hb.
  destruct (Z.eq_dec (dat mem param m) data) as [Hsame|Hdiff].
  - destruct (write_same N N_pos param mem tr fuel m data Hfit Hfuel Hb Hsame)
      as (evs & Hw & _).
    exists mem, evs. split_and!; [exact Hw|reflexivity|reflexivity|].
    left. exists m. split; [exact Hr|exact Hsame].
  - destruct (write_changing N N_pos param mem tr fuel m data Hfit Hfuel Hb Hdiff)
      as (evs & Hw & _).
    destruct (erased_run_write mem param m data Hfit Hr ltac:(lia)) as [Hr' Hd'].
    eexists _, _. split_and!; [exact Hw|apply size_written| |].
    + intros a Ha. apply (written_frame N N_pos); [exact Hfit|lia| |].
      * unfold next_slot. destruct (Z.eqb_spec (m + 1) N); lia.
      * unfold next_slot. destruct (Z.eqb_spec (m + 1) N); lia.
    + left. exists (m + 1). split; [exact Hr'|].
      rewrite Hd'. unfold u8. apply Z.mod_small. exact Hdata.
Qed.

Lemma erased_updates param fuel :
  (Z.to_nat N <= fuel)%nat ->
  forall vs mem tr v,
    group_fits N mem param ->
    (exists m, erased_run N mem param m /\ dat mem param m = v) \/ stores N mem param v ->
    Forall is_byte vs ->
    exists mem' evs,
      updates N fuel param vs (World mem tr) = Ok tt (World mem' (tr ++ evs)) /\
      size mem' = size mem /\
      (forall a, ~ (param <= a < param + 2 * N) -> cell mem' a = cell mem a) /\
      ((exists m, erased_run N mem' param m /\ dat mem' param m = List.last vs v)
       \/ stores N mem' param (List.last vs v)).
Proof.
  intros Hfuel. induction vs as [|d vs IH]; intros mem tr v Hfit Hst Hvs.
  - exists mem, []. rewrite app_nil_r. split_and!; try reflexivity. exact Hst.
  - apply Forall_cons in Hvs as [Hd Hvs].
    destruct (erased_step param mem tr fuel v d Hfit Hst Hd Hfuel)
      as (m1 & e1 & H1 & Hsz1 & Hfr1 & Hst1).
    assert (Hfit1 : group_fits N m1 param)
      by (unfold group_fits in *; rewrite Hsz1; exact Hfit).
    destruct (IH m1 (tr ++ e1) d Hfit1 Hst1 Hvs) as (m2 & e2 & H2 & Hsz2 & Hfr2 & Hst2).
    exists m2, (e1 ++ e2). rewrite app_assoc. split_and!.
    + cbn [updates]. rewrite (bind_ok _ _ _ _ _ H1). exact H2.
    + lia.
    + intros a Ha. rewrite Hfr2, Hfr1 by exact Ha. reflexivity.
    + rewrite last_cons_default. exact Hst2.
Qed.

End Erased.

(** ** main.c *)

Section Main.

Variable N : Z.
Hypothesis N_pos : 1 <= N.
Hypothesis N_byte : N <= 255.

Lemma block_stores_frame param len vs mem mem' :
  Z.of_nat (length vs) = len ->
  size mem' = size mem ->
  (forall a, param <= a < group_base N param len -> cell mem' a = cell mem a) ->
  block_stores N mem param vs -> block_stores N mem' param vs.
Proof.
  intros Hlen Hsz Hcells Hst i v Hv.
  apply (stores_in_group N N_pos param (Z.of_nat i) mem mem' v Hsz); [|apply Hst, Hv].
  intros a Ha. apply Hcells.
  apply (in_group_in_block N N_pos param len (Z.of_nat i) a); [|exact Ha].
  apply lookup_lt_Some in Hv. lia.
Qed.

Lemma main_layout mem :
  EE_EEPROM_END N <= size mem ->
  group_fits N mem EE_VOLUME /\
  block_fits N mem (EE_SETTINGS N) 3 /\
  u16 (EE_SETTINGS N) = EE_SETTINGS N /\
  group_base N (EE_SETTINGS N) 3 = EE_EEPROM_END N /\
  EE_SETTINGS N = EE_VOLUME + 2 * N.
Proof.
  unfold EE_EEPROM_END, EE_SETTINGS, EE_VOLUME, group_fits, block_fits, group_base.
  intros H. split_and!; try lia. apply u16_small. lia.
Qed.

(** The state of the two parameters of main.c. *)
Lemma main_write_volume mem tr fuel v bytes data :
  EE_EEPROM_END N <= size mem ->
  (Z.to_nat N <= fuel)%nat ->
  stores N mem EE_VOLUME v ->
  block_stores N mem (EE_SETTINGS N) bytes ->
  length bytes = 3%nat ->
  is_byte data ->
  exists mem' evs,
    EEPROM_WriteWearLeveledByte N fuel EE_VOLUME data (World mem tr)
    = Ok tt (World mem' (tr ++ evs)) /\
    size mem' = size mem /\
    (forall a, ~ (0 <= a < EE_EEPROM_END N) -> cell mem' a = cell mem a) /\
    stores N mem' EE_VOLUME data /\
    block_stores N mem' (EE_SETTINGS N) bytes.
Proof.
  intros Hend Hfuel Hv Hb Hlen Hdata.
  destruct (main_layout mem Hend) as (_ & _ & _ & Hg3 & Hs).
  destruct (write_stores N N_pos N_byte EE_VOLUME mem tr fuel v data Hv Hdata Hfuel)
    as (mem' & evs & Hw & Hv' & Hsz & Hframe & _).
  exists mem', evs. split_and!; try assumption.
  - intros a Ha. apply Hframe. unfold EE_EEPROM_END, EE_SETTINGS, EE_VOLUME in *. lia.
  - apply (block_stores_frame (EE_SETTINGS N) 3 bytes mem mem'); [lia|exact Hsz| |exact Hb].
    intros a Ha. apply Hframe. lia.
Qed.

Lemma main_write_settings mem tr fuel v bytes data :
  EE_EEPROM_END N <= size mem ->
  (Z.to_nat N <= fuel)%nat ->
  stores N mem EE_VOLUME v ->
  block_stores N mem (EE_SETTINGS N) bytes ->
  length bytes = 3%nat ->
  length data = 3%nat ->
  Forall is_byte data ->
  exists mem' evs,
    EEPROM_WriteWearLeveledBlock N fuel (EE_SETTINGS N) data 3 (World mem tr)
    = Ok tt (World mem' (tr ++ evs)) /\
    size mem' = size mem /\
    (forall a, ~ (0 <= a < EE_EEPROM_END N) -> cell mem' a = cell mem a) /\
    stores N mem' EE_VOLUME v /\
    block_stores N mem' (EE_SETTINGS N) data.
Proof.
  intros Hend Hfuel Hv Hb Hlen Hlen' Hdata.
  destruct (main_layout mem Hend) as (_ & Hbf & _ & Hg3 & Hs).
  destruct (write_block_spec N N_pos N_byte (EE_SETTINGS N) 3 bytes data mem tr fuel
              Hbf Hb ltac:(lia) ltac:(lia) Hdata Hfuel)
    as (mem' & evs & Hw & Hsz & Hframe & Hb' & _).
  exists mem', evs. split_and!; try assumption.
  - intros a Ha. apply Hframe. unfold EE_EEPROM_END, EE_SETTINGS, EE_VOLUME in *. lia.
  - apply (stores_frame N N_pos EE_VOLUME mem mem'); [exact Hsz| |exact Hv].
    intros a Ha. apply Hframe. lia.
Qed.

End Main.

(** ** The dump *)

(** The row of the dump that holds cells 0 to 15 ends after cell 15:
    after the first call of main.c, cells 15 and 16 are printed as the
    end of one row and the start of the next. *)
Example print_row_break :
  exists w,
    (let* _ := EEPROM_InitWearLeveledByte 8 8 0 0x40 in EEPROM_Print 15 17) (blank 512)
    = Ok (dashes
          ++ ["0"; "6"; " "; newline; "F"; "F"; " "]%char
          ++ dashes) w.
Proof. eexists. vm_compute. reflexivity. Qed.


Lemma hex_digit_inj a b :
  0 <= a < 16 -> 0 <= b < 16 -> hex_digit a = hex_digit b -> a = b.
Proof.
  intros Ha Hb H. unfold hex_digit in H.
  apply (f_equal nat_of_ascii) in H.
  rewrite !nat_ascii_embedding in H
    by (destruct (a <? 10), (b <? 10); lia).
  destruct (Z.ltb_spec a 10), (Z.ltb_spec b 10); lia.
Qed.

Lemma print_02X_inj a b :
  is_byte a -> is_byte b -> print_02X a = print_02X b -> a = b.
Proof.
  unfold is_byte, print_02X. intros Ha Hb H.
  injection H as Hhi Hlo.
  apply hex_digit_inj in Hhi; [|Z.div_mod_to_equations; lia..].
  apply hex_digit_inj in Hlo; [|Z.div_mod_to_equations; lia..].
  rewrite (Z.div_mod a 16), (Z.div_mod b 16) by lia. congruence.
Qed.

Lemma print_loop_ok mem :
  forall count i tr,
    0 <= i -> i + Z.of_nat count <= size mem ->
    exists out,
      print_loop count i (World mem tr)
      = Ok out (World mem (tr ++ map EvRead (seqZ i (Z.of_nat count)))) /\
      Z.of_nat (length out)
      = 3 * Z.of_nat count + ((i + Z.of_nat count) / 16 - i / 16).
Proof.
  induction count as [|count IH]; intros i tr Hi Hend.
  - exists []. simpl. unfold ret. rewrite app_nil_r, Z.add_0_r. split; [reflexivity|lia].
  - destruct (IH (i + 1) (tr ++ [EvRead i]) ltac:(lia) ltac:(lia)) as (rest & Hrun & Hlen).
    eexists. split.
    + cbn [print_loop]. rewrite (bind_ok _ _ _ _ _ (EEPROM_Read_ok mem tr i ltac:(lia))).
      rewrite (bind_ok _ _ _ _ _ Hrun). unfold ret.
      replace (Z.of_nat (S count)) with (Z.succ (Z.of_nat count)) by lia.
      rewrite (seqZ_cons i) by lia. rewrite Z.pred_succ. cbn [map].
      rewrite <- app_assoc. reflexivity.
    + rewrite length_app, length_cons, length_app. cbn [print_02X length].
      replace (i + Z.of_nat (S count)) with (i + 1 + Z.of_nat count) by lia.
      destruct (Z.eqb_spec ((i + 1) mod 16) 0) as [E|E]; cbn [length];
        Z.div_mod_to_equations; lia.
Qed.

Lemma print_loop_fault mem :
  forall count i tr,
    0 <= i -> (0 < count)%nat -> size mem < i + Z.of_nat count ->
    print_loop count i (World mem tr) = Fault.
Proof.
  induction count as [|count IH]; intros i tr Hi Hcount Hend; [lia|].
  cbn [print_loop]. destruct (Z.lt_ge_cases i (size mem)) as [Hin|Hout].
  - rewrite (bind_ok _ _ _ _ _ (EEPROM_Read_ok mem tr i ltac:(lia))).
    unfold bind. rewrite IH by lia. reflexivity.
  - unfold bind, EEPROM_Read. cbn [eeprom].
    destruct (Z.ltb_spec i 0); [reflexivity|].
    rewrite (proj2 (lookup_ge_None mem (Z.to_nat i))); [reflexivity|].
    unfold size in Hout. lia.
Qed.

Lemma print_loop_inj mem mem' :
  Forall is_byte mem -> Forall is_byte mem' ->
  forall count i tr tr' out out' w w',
    0 <= i -> i + Z.of_nat count <= size mem -> i + Z.of_nat count <= size mem' ->
    print_loop count i (World mem tr) = Ok out w ->
    print_loop count i (World mem' tr') = Ok out' w' ->
    (out = out' <-> forall a, i <= a < i + Z.of_nat count -> cell mem a = cell mem' a).
Proof.
  intros Hm Hm'.
  assert (Hcell : forall m a, Forall is_byte m -> 0 <= a < size m -> is_byte (cell m a)).
  { intros m a Hb [Ha0 Ha1]. unfold cell, size in *.
    destruct (Z.ltb_spec a 0); [lia|].
    destruct (m !! Z.to_nat a) eqn:E.
    - exact (proj1 (Forall_lookup _ _) Hb _ _ E).
    - apply lookup_ge_None in E. lia. }
  induction count as [|count IH]; intros i tr tr' out out' w w' Hi Hend Hend' Hrun Hrun'.
  - simpl in Hrun, Hrun'. unfold ret in *.
    injection Hrun as <- _. injection Hrun' as <- _.
    split; [intros _ a Ha; lia|reflexivity].
  - cbn [print_loop] in Hrun, Hrun'.
    rewrite (bind_ok _ _ _ _ _ (EEPROM_Read_ok mem tr i ltac:(lia))) in Hrun.
    rewrite (bind_ok _ _ _ _ _ (EEPROM_Read_ok mem' tr' i ltac:(lia))) in Hrun'.
    destruct (print_loop_ok mem count (i + 1) (tr ++ [EvRead i]) ltac:(lia) ltac:(lia))
      as (rest & Hr & _).
    destruct (print_loop_ok mem' count (i + 1) (tr' ++ [EvRead i]) ltac:(lia) ltac:(lia))
      as (rest' & Hr' & _).
    rewrite (bind_ok _ _ _ _ _ Hr) in Hrun. rewrite (bind_ok _ _ _ _ _ Hr') in Hrun'.
    unfold ret in *. injection Hrun as <- _. injection Hrun' as <- _.
    pose proof (IH (i + 1) _ _ _ _ _ _ ltac:(lia) ltac:(lia) ltac:(lia) Hr Hr') as Hrest.
    pose proof (Hcell mem i Hm ltac:(lia)) as Hb.
    pose proof (Hcell mem' i Hm' ltac:(lia)) as Hb'.
    split.
    + intros Heq. cbn [print_02X app] in Heq.
      injection Heq as Hhi Hlo Htail.
      assert (Hd : cell mem i = cell mem' i)
        by (apply print_02X_inj; [exact Hb|exact Hb'|unfold print_02X; congruence]).
      apply app_inv_head in Htail.
      intros a Ha. destruct (Z.eq_dec a i) as [->|Hne]; [exact Hd|].
      apply (proj1 Hrest Htail). lia.
    + intros Hcells. rewrite (Hcells i) by lia.
      rewrite (proj2 Hrest); [reflexivity|]. intros a Ha. apply Hcells. lia.
Qed.

(** * Further properties: the statements *)

(** X1. On any content, [EEPROM_FindCurrentAddress] returns the data
    cell of the slot at which the run of counters that starts at
    index 0 stops ascending (the last slot if it never stops); there
    is exactly one such slot, and the medium is left as it is. *)
Theorem resolver_returns_boundary (N param : Z) (mem : list Z) (tr : list event) (fuel : nat) :
  1 <= N ->
  group_fits N mem param ->
  (Z.to_nat N <= fuel)%nat ->
  exists k evs,
    boundary N mem param k /\
    (forall k', boundary N mem param k' -> k' = k) /\
    EEPROM_FindCurrentAddress N fuel param (World mem tr)
    = Ok (param + k) (World mem (tr ++ evs)).
Proof.
  intros N_pos Hfit Hfuel.
  destruct (find_spec N N_pos param mem tr fuel Hfit Hfuel) as (k & evs & Hbnd & Hf & _).
  exists k, evs. split_and!; [exact Hbnd| |exact Hf].
  intros k' Hk'. exact (boundary_unique N param mem k' k Hk' Hbnd).
Qed.

Lemma resolver_returns_boundary_witness :
  exists k evs,
    boundary 4 [0x0A; 0x0B; 0x0C; 0x0D; 254; 255; 0; 253] 0 k /\
    (forall k', boundary 4 [0x0A; 0x0B; 0x0C; 0x0D; 254; 255; 0; 253] 0 k' -> k' = k) /\
    EEPROM_FindCurrentAddress 4 4 0 (World [0x0A; 0x0B; 0x0C; 0x0D; 254; 255; 0; 253] [])
    = Ok (0 + k) (World [0x0A; 0x0B; 0x0C; 0x0D; 254; 255; 0; 253] ([] ++ evs)).
Proof.
  apply (resolver_returns_boundary 4 0 [0x0A; 0x0B; 0x0C; 0x0D; 254; 255; 0; 253] [] 4).
  - lia.
  - unfold group_fits, size. simpl. lia.
  - simpl. lia.
Defined.

(** X2. On any content, [EEPROM_ReadWearLeveledByte] returns the data
    cell of the slot the resolver selects, does not change the medium,
    and only reads cells of its own group. *)
Theorem read_byte_pure (N param : Z) (mem : list Z) (tr : list event) (fuel : nat) :
  1 <= N ->
  group_fits N mem param ->
  (Z.to_nat N <= fuel)%nat ->
  exists k evs evs',
    EEPROM_FindCurrentAddress N fuel param (World mem tr)
    = Ok (param + k) (World mem (tr ++ evs')) /\
    EEPROM_ReadWearLeveledByte N fuel param (World mem tr)
    = Ok (cell mem (param + k)) (World mem (tr ++ evs)) /\
    Forall (reads_within param (param + 2 * N)) evs.
Proof.
  intros N_pos Hfit Hfuel.
  destruct (read_any N N_pos param mem tr fuel Hfit Hfuel) as (k & evs & Hbnd & Hr & Hevs).
  destruct (find_at N N_pos param mem tr fuel k Hfit Hfuel Hbnd) as (evs' & Hf & _).
  exists k, evs, evs'. split_and!; assumption.
Qed.

Lemma read_byte_pure_witness :
  exists k evs evs',
    EEPROM_FindCurrentAddress 8 8 0 (blank 512)
    = Ok (0 + k) (World (replicate 512 255) ([] ++ evs')) /\
    EEPROM_ReadWearLeveledByte 8 8 0 (blank 512)
    = Ok (cell (replicate 512 255) (0 + k)) (World (replicate 512 255) ([] ++ evs)) /\
    Forall (reads_within 0 (0 + 2 * 8)) evs.
Proof.
  apply (read_byte_pure 8 0 (replicate 512 255) [] 8).
  - lia.
  - unfold group_fits, size. simpl. lia.
  - simpl. lia.
Defined.

(** X3. On any content, [EEPROM_ReadWearLeveledBlock] returns [len]
    bytes, byte [i] being what [EEPROM_ReadWearLeveledByte] returns for
    the group at [param + i * 2N]; it does not change the medium and
    only reads cells of the block. *)
Theorem read_block_pure (N param len : Z) (mem : list Z) (tr : list event) (fuel : nat) :
  1 <= N ->
  block_fits N mem param len ->
  (Z.to_nat N <= fuel)%nat ->
  exists vs evs,
    EEPROM_ReadWearLeveledBlock N fuel param len (World mem tr)
    = Ok vs (World mem (tr ++ evs)) /\
    Z.of_nat (length vs) = len /\
    Forall (reads_within param (param + len * (2 * N))) evs /\
    forall i v, vs !! i = Some v ->
      exists w', EEPROM_ReadWearLeveledByte N fuel (param + Z.of_nat i * (2 * N)) (World mem tr)
                 = Ok v w'.
Proof.
  intros N_pos Hfit Hfuel.
  pose proof Hfit as (_ & Hlen & _).
  destruct (read_block_any N N_pos param len mem fuel Hfit Hfuel (Z.to_nat len) 0 tr)
    as (vs & evs & Hrun & Hl & Hevs); [lia|lia|].
  assert (Hb : forall i, group_base N param i = param + i * (2 * N))
    by (intros; unfold group_base; lia).
  exists vs, evs. rewrite <- Hb. split_and!; [exact Hrun|lia|exact Hevs|].
  intros i v Hv.
  assert (Hi : (i < Z.to_nat len)%nat) by (apply lookup_lt_Some in Hv; lia).
  destruct (read_block_loop_spec N N_pos param len mem fuel Hfit Hfuel
              (Z.to_nat len) 0 tr vs _ ltac:(lia) ltac:(lia) Hrun i Hi) as (k & Hbnd & Hk).
  rewrite Z.add_0_l in Hbnd, Hk.
  destruct (block_group_fits N N_pos mem param len (Z.of_nat i) Hfit ltac:(lia)) as [Hg _].
  destruct (read_at N N_pos _ mem tr fuel k Hg Hfuel Hbnd) as (evs' & Hr & _).
  rewrite <- Hb. eexists. rewrite Hr. f_equal. congruence.
Qed.

Lemma read_block_pure_witness :
  exists vs evs,
    EEPROM_ReadWearLeveledBlock 8 8 16 3 (blank 512)
    = Ok vs (World (replicate 512 255) ([] ++ evs)) /\
    Z.of_nat (length vs) = 3 /\
    Forall (reads_within 16 (16 + 3 * (2 * 8))) evs /\
    forall i v, vs !! i = Some v ->
      exists w', EEPROM_ReadWearLeveledByte 8 8 (16 + Z.of_nat i * (2 * 8)) (blank 512)
                 = Ok v w'.
Proof.
  apply (read_block_pure 8 16 3 (replicate 512 255) [] 8).
  - lia.
  - unfold block_fits, group_base, size. simpl. lia.
  - simpl. lia.
Defined.

(** X4. Parameters do not interact: a write or an initialization of
    one group returns and leaves what a read of any group apart from
    it returns as it was, whatever the content of either group. *)
Theorem parameters_independent (N pa pb d v : Z) (mem : list Z) (tr : list event)
    (fuel : nat) (w0 : world) :
  1 <= N ->
  group_fits N mem pa ->
  group_fits N mem pb ->
  groups_apart N pa pb ->
  (Z.to_nat N <= fuel)%nat ->
  EEPROM_ReadWearLeveledByte N fuel pb (World mem tr) = Ok v w0 ->
  (exists w1 w2,
      EEPROM_WriteWearLeveledByte N fuel pa d (World mem tr) = Ok tt w1 /\
      EEPROM_ReadWearLeveledByte N fuel pb w1 = Ok v w2) /\
  (N <= 255 ->
   exists w1 w2,
      EEPROM_InitWearLeveledByte N fuel pa d (World mem tr) = Ok d w1 /\
      EEPROM_ReadWearLeveledByte N fuel pb w1 = Ok v w2).
Proof.
  intros N_pos Ha Hb Hapart Hfuel Hread. split.
  - destruct (write_byte_frame N N_pos pa d mem tr fuel Ha Hfuel)
      as (mem' & evs & Hw & Hsz & Hframe & _).
    destruct (read_local N N_pos pb mem mem' tr (tr ++ evs) fuel v w0 Hb Hfuel Hsz) as (evs' & Hr).
    + intros a Hin. apply Hframe. unfold groups_apart in Hapart. lia.
    + exact Hread.
    + eexists _, _. split; [exact Hw|exact Hr].
  - intros N_byte.
    destruct (init_stores N N_pos N_byte pa mem tr fuel d Ha Hfuel)
      as (mem' & evs & Hi & _ & Hsz & Hframe & _).
    destruct (read_local N N_pos pb mem mem' tr (tr ++ evs) fuel v w0 Hb Hfuel Hsz) as (evs' & Hr).
    + intros a Hin. apply Hframe. unfold groups_apart in Hapart. lia.
    + exact Hread.
    + eexists _, _. split; [exact Hi|exact Hr].
Qed.

Lemma parameters_independent_witness :
  let mem := [0x40; 0x41; 0xFF; 0xFF; 0xFF; 0xFF; 0xFF; 0xFF;
              0x07; 0x08; 0x01; 0x02; 0x03; 0x04; 0x05; 0x06;
              0xFD; 0xFF; 0xFF; 0xFF; 0xFF; 0xFF; 0xFF; 0xFF;
              0x07; 0x00; 0x01; 0x02; 0x03; 0x04; 0x05; 0x06] in
  (exists w1 w2,
      EEPROM_WriteWearLeveledByte 8 8 16 0xFE (World mem []) = Ok tt w1 /\
      EEPROM_ReadWearLeveledByte 8 8 0 w1 = Ok 0x41 w2) /\
  (8 <= 255 ->
   exists w1 w2,
      EEPROM_InitWearLeveledByte 8 8 16 0xFE (World mem []) = Ok 0xFE w1 /\
      EEPROM_ReadWearLeveledByte 8 8 0 w1 = Ok 0x41 w2).
Proof.
  intros mem.
  eapply (parameters_independent 8 16 0 0xFE 0x41 mem [] 8).
  - lia.
  - unfold group_fits, size. simpl. lia.
  - unfold group_fits, size. simpl. lia.
  - unfold groups_apart. lia.
  - simpl. lia.
  - vm_compute. reflexivity.
Defined.

(** X5. A block that was initialized reads back as the buffer of the
    last block write, or as the initial buffer if there was none. *)
Theorem block_update_correctness (N param len : Z) (data : list Z) (bufs : list (list Z))
    (mem : list Z) (tr : list event) (fuel : nat) :
  1 <= N <= 255 ->
  block_fits N mem param len ->
  Z.of_nat (length data) = len -> Forall is_byte data ->
  Forall (fun b => Z.of_nat (length b) = len /\ Forall is_byte b) bufs ->
  (Z.to_nat N <= fuel)%nat ->
  exists w',
    block_session N fuel param data bufs len (World mem tr) = Ok (List.last bufs data) w'.
Proof.
  intros [N_pos N_byte] Hfit Hlen Hbytes Hbufs Hfuel.
  destruct (init_block_spec N N_pos N_byte param len data mem tr fuel Hfit Hlen Hbytes Hfuel)
    as (m1 & evs1 & Hi & Hsz1 & _ & Hst1 & _).
  destruct (block_updates_spec N N_pos N_byte param len fuel bufs Hfuel Hbufs data m1
              (tr ++ evs1) (block_fits_size N param len mem m1 Hsz1 Hfit) Hst1 Hlen)
    as (m2 & evs2 & Hu & _ & Hst2 & Hl2).
  destruct (read_block_stores N N_pos param m2 fuel _ Hst2 Hfuel (Z.to_nat len) 0%nat
              ((tr ++ evs1) ++ evs2)) as (evs3 & Hr & _); [lia|].
  eexists. unfold block_session, bind. rewrite Hi, Hu.
  unfold EEPROM_ReadWearLeveledBlock. exact Hr.
Qed.

Lemma block_update_correctness_witness :
  exists w',
    block_session 8 8 16 [0xFD; 0x00; 0x01]
      [[0xFE; 0x00; 0x01]; [0xFF; 0x00; 0x01]; [0x00; 0x01; 0x01]] 3 (blank 512)
    = Ok (List.last [[0xFE; 0x00; 0x01]; [0xFF; 0x00; 0x01]; [0x00; 0x01; 0x01]]
            [0xFD; 0x00; 0x01]) w'.
Proof.
  apply (block_update_correctness 8 16 3 [0xFD; 0x00; 0x01]
           [[0xFE; 0x00; 0x01]; [0xFF; 0x00; 0x01]; [0x00; 0x01; 0x01]]
           (replicate 512 255) [] 8).
  - lia.
  - unfold block_fits, group_base, size. simpl. lia.
  - reflexivity.
  - repeat constructor; unfold is_byte; lia.
  - repeat constructor; unfold is_byte; lia.
  - simpl. lia.
Defined.



(** X7. A block write of the block as it reads back performs no write:
    the medium is left as it is and the call only reads. *)
Theorem block_write_elision (N param len : Z) (old mem : list Z) (tr : list event)
    (fuel : nat) (w0 : world) :
  1 <= N ->
  block_fits N mem param len ->
  (Z.to_nat N <= fuel)%nat ->
  EEPROM_ReadWearLeveledBlock N fuel param len (World mem tr) = Ok old w0 ->
  exists evs,
    EEPROM_WriteWearLeveledBlock N fuel param old len (World mem tr)
    = Ok tt (World mem (tr ++ evs)) /\
    Forall is_read evs.
Proof.
  intros N_pos Hfit Hfuel Hread.
  pose proof Hfit as (_ & Hlen & _).
  apply (write_block_same N N_pos param len old mem fuel Hfit Hfuel); [|lia|lia].
  intros i Hi.
  destruct (read_block_loop_spec N N_pos param len mem fuel Hfit Hfuel
              (Z.to_nat len) 0 tr old w0 ltac:(lia) ltac:(lia) Hread
              (Z.to_nat i) ltac:(lia)) as (k & Hbnd & Hl).
  rewrite Z.add_0_l, Z2Nat.id in Hbnd, Hl by lia.
  exists k. split; assumption.
Qed.

Lemma block_write_elision_witness :
  let mem := [0xFD; 0xFE; 0xFF; 0xFF; 0xFF; 0xFF; 0xFF; 0xFF;
              0x07; 0x08; 0x01; 0x02; 0x03; 0x04; 0x05; 0x06;
              0x00; 0xFF; 0xFF; 0xFF; 0xFF; 0xFF; 0xFF; 0xFF;
              0x07; 0x00; 0x01; 0x02; 0x03; 0x04; 0x05; 0x06] in
  exists evs,
    EEPROM_WriteWearLeveledBlock 8 8 0 [0xFE; 0x00] 2 (World mem [])
    = Ok tt (World mem ([] ++ evs)) /\
    Forall is_read evs.
Proof.
  intros mem.
  eapply (block_write_elision 8 0 2 [0xFE; 0x00] mem [] 8).
  - lia.
  - unfold block_fits, group_base, size. simpl. lia.
  - simpl. lia.
  - vm_compute. reflexivity.
Defined.

(** X8. Wear is spread round the ring: from a group that was
    initialized and updated, with slot [k] active, updates that each
    change the value write two cells each, the data cell of the next
    slot and then its counter; no cell is written twice within [N]
    updates, and [m * N] updates write each of the [2N] cells of the
    group exactly [m] times. *)
Theorem wear_is_spread (N param v0 k cur : Z) (vs0 vs mem : list Z)
    (tr : list event) (fuel : nat) (w wk wc : world) :
  1 <= N <= 255 ->
  group_fits N mem param ->
  is_byte v0 -> Forall is_byte vs0 -> Forall is_byte vs ->
  (Z.to_nat N <= fuel)%nat ->
  init_then_updates N fuel param v0 vs0 (World mem tr) = Ok tt w ->
  EEPROM_FindCurrentAddress N fuel param w = Ok (param + k) wk ->
  EEPROM_ReadWearLeveledByte N fuel param w = Ok cur wc ->
  changing cur vs ->
  exists mem' evs,
    updates N fuel param vs w = Ok tt (World mem' (trace w ++ evs)) /\
    write_addresses evs = ring_writes N param k (length vs) /\
    (Z.of_nat (length vs) <= N -> NoDup (write_addresses evs)) /\
    (forall m a, length vs = (m * Z.to_nat N)%nat ->
       param <= a < param + 2 * N ->
       count_occ Z.eq_dec (write_addresses evs) a = m).
Proof.
  intros [N_pos N_byte] Hfit Hv0 Hvs0 Hvs Hfuel Hreach Hfind Hread Hch.
  destruct (init_initialized N N_pos N_byte param mem tr fuel v0 Hfit Hfuel)
    as (w1 & Hi & Hinit1 & _).
  destruct (updates_initialized N N_pos N_byte param fuel vs0 Hfuel Hvs0 0 w1 Hinit1)
    as (w' & k' & Hu & Hinit).
  unfold init_then_updates, bind in Hreach. rewrite Hi, Hu in Hreach.
  injection Hreach as ->.
  destruct (read_initialized N N_pos param k' w fuel Hinit Hfuel) as (revs & Hr & _).
  rewrite Hr in Hread. injection Hread as Hcur _.
  pose proof Hinit as (Hfit' & (Hbnd & _) & _).
  destruct w as [mem' tr'].
  destruct (find_at N N_pos param mem' tr' fuel k' Hfit' Hfuel Hbnd) as (fevs & Hf & _).
  rewrite Hf in Hfind. injection Hfind as Hk _.
  assert (k' = k) as -> by lia. clear Hk.
  cbn [eeprom] in Hcur. rewrite <- Hcur in Hch.
  destruct (changing_updates_writes N N_pos N_byte param fuel vs Hfuel Hvs k _ Hinit Hch)
    as (mem'' & evs & Hrun & Hwr).
  destruct Hbnd as (Hk & _).
  exists mem'', evs. split_and!; [exact Hrun|exact Hwr| |].
  - intros Hn. rewrite Hwr. apply (ring_writes_NoDup N N_pos); assumption.
  - intros m a Hm Ha. rewrite Hwr, Hm. apply (ring_writes_rounds N N_pos); assumption.
Qed.

Lemma wear_is_spread_witness :
  exists w,
    init_then_updates 3 3 0 1 [2] (blank 6) = Ok tt w /\
    exists mem' evs,
      updates 3 3 0 [3; 4; 5] w = Ok tt (World mem' (trace w ++ evs)) /\
      write_addresses evs = ring_writes 3 0 1 (length [3; 4; 5]) /\
      (Z.of_nat (length [3; 4; 5]) <= 3 -> NoDup (write_addresses evs)) /\
      (forall m a, length [3; 4; 5] = (m * Z.to_nat 3)%nat ->
         0 <= a < 0 + 2 * 3 ->
         count_occ Z.eq_dec (write_addresses evs) a = m).
Proof.
  eexists. split; [vm_compute; reflexivity|].
  eapply (wear_is_spread 3 0 1 1 2 [2] [3; 4; 5] (replicate 6 255) [] 3).
  - lia.
  - unfold group_fits, size. simpl. lia.
  - unfold is_byte. lia.
  - repeat constructor; unfold is_byte; lia.
  - repeat constructor; unfold is_byte; lia.
  - simpl. lia.
  - vm_compute. reflexivity.
  - vm_compute. reflexivity.
  - vm_compute. reflexivity.
  - simpl. repeat split; lia.
Defined.

(** X9. The initializer counts its loop in a [uint8_t]: with a
    wear-level factor of 256 or more no call of it returns, whatever
    the medium, the offset and the value. *)
Theorem init_needs_small_factor (N param data r : Z) (w w' : world) (fuel : nat) :
  256 <= N ->
  EEPROM_InitWearLeveledByte N fuel param data w <> Ok r w'.
Proof.
  intros HN. unfold EEPROM_InitWearLeveledByte, bind.
  destruct (EEPROM_Write (param + N) (N - 1) w) as [[] w1| |w1];
    [|discriminate|discriminate].
  destruct (init_loop N fuel 1 param w1) as [[] w2| |w2] eqn:E;
    [|discriminate|discriminate].
  exfalso. apply (init_loop_large_never_returns N param fuel HN 1 w1 w2); [lia|exact E].
Qed.

Lemma init_needs_small_factor_witness :
  EEPROM_InitWearLeveledByte 300 1000 0 0x40 (blank 1024) <> Ok 0x40 (blank 1024) /\
  exists w, EEPROM_InitWearLeveledByte 300 1000 0 0x40 (blank 1024) = OutOfFuel w.
Proof.
  split.
  - apply (init_needs_small_factor 300 0 0x40 0x40 (blank 1024) (blank 1024) 1000). lia.
  - eexists. vm_compute. reflexivity.
Defined.

(** X10. An initialization reads nothing and performs [N + 1] writes:
    counter 0 becomes [N - 1], counter [i] becomes [i - 1] for [i] from
    1 to [N - 1], then data cell 0 becomes the value; the other data
    cells of the group and all cells outside it keep their content. *)
Theorem init_writes (N param data : Z) (mem : list Z) (tr : list event) (fuel : nat) :
  1 <= N <= 255 ->
  group_fits N mem param ->
  (Z.to_nat N <= fuel)%nat ->
  EEPROM_InitWearLeveledByte N fuel param data (World mem tr)
  = Ok data (World (replay (init_events N param data) mem)
               (tr ++ init_events N param data)) /\
  Z.of_nat (length (init_events N param data)) = N + 1 /\
  (forall a, a <> param -> ~ (param + N <= a < param + 2 * N) ->
             cell (replay (init_events N param data) mem) a = cell mem a).
Proof.
  intros [N_pos N_byte] Hfit Hfuel.
  assert (Hrun : EEPROM_InitWearLeveledByte N fuel param data (World mem tr)
                 = Ok data (World (replay (init_events N param data) mem)
                              (tr ++ init_events N param data))).
  { destruct Hfit as (Hp0 & Hsz & H16).
    unfold EEPROM_InitWearLeveledByte, init_events.
    unfold bind at 1. rewrite EEPROM_Write_ok by lia.
    unfold bind at 1.
    rewrite (init_loop_events N param N_byte Hp0) by (rewrite ?size_insert; lia).
    unfold bind at 1. rewrite EEPROM_Write_ok.
    - unfold ret. rewrite (u8_small (N - 1)) by lia. f_equal. f_equal.
      + rewrite replay_cons, replay_app. reflexivity.
      + rewrite <- !app_assoc. reflexivity.
    - assert (Hsize : forall evs m, size (replay evs m) = size m).
      { induction evs as [|[a|a d] evs IH]; intros m; [reflexivity|apply IH|].
        rewrite replay_cons, IH. apply size_insert. }
      rewrite Hsize, size_insert. lia. }
  split_and!; [exact Hrun| |].
  - unfold init_events. cbn [length]. rewrite length_app, length_map, length_seqZ.
    simpl length. lia.
  - destruct (init_spec N N_pos N_byte param mem tr fuel data Hfit Hfuel)
      as (mem' & evs & Hrun' & _ & _ & _ & _ & Hframe & _).
    assert (Hmem : replay (init_events N param data) mem = mem') by congruence.
    rewrite Hmem. exact Hframe.
Qed.

Lemma init_writes_witness :
  EEPROM_InitWearLeveledByte 8 8 0 0x40 (blank 512)
  = Ok 0x40 (World (replay (init_events 8 0 0x40) (replicate 512 255))
               ([] ++ init_events 8 0 0x40)) /\
  Z.of_nat (length (init_events 8 0 0x40)) = 8 + 1 /\
  (forall a, a <> 0 -> ~ (0 + 8 <= a < 0 + 2 * 8) ->
             cell (replay (init_events 8 0 0x40) (replicate 512 255)) a
             = cell (replicate 512 255) a).
Proof.
  apply (init_writes 8 0 0x40 (replicate 512 255) [] 8).
  - lia.
  - unfold group_fits, size. simpl. lia.
  - simpl. lia.
Defined.

(** X11. main.c, for every wear-level factor from 1 to 255 and every
    medium that holds its four groups (the static assertion of
    eeprom.h): whatever the medium held before, [main] returns with
    [volume] 0x41 and [settings] 0x0100 and 0x01; reading the two
    parameters back afterwards gives these values, and no cell from
    [EE_EEPROM_END] on has changed. *)
Theorem main_runs (N : Z) (mem : list Z) (tr : list event) (fuel : nat) :
  1 <= N <= 255 ->
  EE_EEPROM_END N <= size mem ->
  (Z.to_nat N <= fuel)%nat ->
  exists mem' evs w1 w2,
    main_program N fuel (World mem tr)
    = Ok (0x41, (0x0100, 0x01)) (World mem' (tr ++ evs)) /\
    size mem' = size mem /\
    (forall a, ~ (0 <= a < EE_EEPROM_END N) -> cell mem' a = cell mem a) /\
    EEPROM_ReadWearLeveledByte N fuel EE_VOLUME (World mem' (tr ++ evs)) = Ok 0x41 w1 /\
    EEPROM_ReadWearLeveledBlock N fuel (EE_SETTINGS N) 3 (World mem' (tr ++ evs))
    = Ok [0x00; 0x01; 0x01] w2.
Proof.
  intros [N_pos N_byte] Hend Hfuel.
  destruct (main_layout N N_pos N_byte mem Hend) as (Hgf & Hbf & Hu & Hg3 & Hs).
  unfold main_program. cbv zeta. rewrite Hu.
  change (settings_bytes 253 1) with [253; 0; 1].
  (* the two initializers *)
  destruct (init_stores N N_pos N_byte EE_VOLUME mem tr fuel 0x40 Hgf Hfuel)
    as (m1 & e1 & H1 & Hv1 & Hsz1 & Hfr1 & _).
  change (u8 64) with 64 in Hv1.
  rewrite (bind_ok _ _ _ _ _ H1).
  assert (Hend1 : EE_EEPROM_END N <= size m1) by lia.
  destruct (main_layout N N_pos N_byte m1 Hend1) as (_ & Hbf1 & _ & _ & _).
  destruct (init_block_spec N N_pos N_byte (EE_SETTINGS N) 3 [253; 0; 1] m1 (tr ++ e1) fuel
              Hbf1 eq_refl ltac:(repeat constructor; unfold is_byte; lia) Hfuel)
    as (m2 & e2 & H2 & Hsz2 & Hfr2 & Hb2 & _).
  rewrite (bind_ok _ _ _ _ _ H2).
  assert (Hv2 : stores N m2 EE_VOLUME 64).
  { apply (stores_frame N N_pos EE_VOLUME m1 m2); [exact Hsz2| |exact Hv1].
    intros a Ha. apply Hfr2. lia. }
  (* the two reads *)
  destruct (read_stores N N_pos EE_VOLUME m2 ((tr ++ e1) ++ e2) fuel 64 Hv2 Hfuel)
    as (e3 & H3 & _).
  rewrite (bind_ok _ _ _ _ _ H3).
  destruct (read_block_stores N N_pos (EE_SETTINGS N) m2 fuel [253; 0; 1] Hb2 Hfuel
              3%nat 0%nat (((tr ++ e1) ++ e2) ++ e3) eq_refl) as (e4 & H4 & _).
  change (read_block_loop N fuel 3 (Z.of_nat 0) (EE_SETTINGS N))
    with (EEPROM_ReadWearLeveledBlock N fuel (EE_SETTINGS N) 3) in H4.
  rewrite (bind_ok _ _ _ _ _ H4).
  change (u8 (64 + 1)) with 65.
  change (settings_bytes (u16 (fst (settings_of (drop 0 [253; 0; 1])) + 1))
            (snd (settings_of (drop 0 [253; 0; 1])))) with [254; 0; 1].
  change (settings_bytes
            (u16 (u16 (fst (settings_of (drop 0 [253; 0; 1])) + 1) + 1))
            (snd (settings_of (drop 0 [253; 0; 1])))) with [255; 0; 1].
  change (settings_bytes
            (u16 (u16 (u16 (fst (settings_of (drop 0 [253; 0; 1])) + 1) + 1) + 1))
            (snd (settings_of (drop 0 [253; 0; 1])))) with [0; 1; 1].
  change (u16 (u16 (u16 (fst (settings_of (drop 0 [253; 0; 1])) + 1) + 1) + 1)) with 256.
  change (snd (settings_of (drop 0 [253; 0; 1]))) with 1.
  (* the four updates *)
  assert (Hend2 : EE_EEPROM_END N <= size m2) by lia.
  destruct (main_write_volume N N_pos N_byte m2 ((((tr ++ e1) ++ e2) ++ e3) ++ e4) fuel
              64 [253; 0; 1] 65 Hend2 Hfuel Hv2 Hb2 eq_refl ltac:(unfold is_byte; lia))
    as (m5 & e5 & H5 & Hsz5 & Hfr5 & Hv5 & Hb5).
  rewrite (bind_ok _ _ _ _ _ H5).
  assert (Hend5 : EE_EEPROM_END N <= size m5) by lia.
  destruct (main_write_settings N N_pos N_byte m5 (((((tr ++ e1) ++ e2) ++ e3) ++ e4) ++ e5) fuel 65 [253; 0; 1] [254; 0; 1]
              Hend5 Hfuel Hv5 Hb5 eq_refl eq_refl
              ltac:(repeat constructor; unfold is_byte; lia))
    as (m6 & e6 & H6 & Hsz6 & Hfr6 & Hv6 & Hb6).
  rewrite (bind_ok _ _ _ _ _ H6).
  assert (Hend6 : EE_EEPROM_END N <= size m6) by lia.
  destruct (main_write_settings N N_pos N_byte m6 ((((((tr ++ e1) ++ e2) ++ e3) ++ e4) ++ e5) ++ e6) fuel 65 [254; 0; 1] [255; 0; 1]
              Hend6 Hfuel Hv6 Hb6 eq_refl eq_refl
              ltac:(repeat constructor; unfold is_byte; lia))
    as (m7 & e7 & H7 & Hsz7 & Hfr7 & Hv7 & Hb7).
  rewrite (bind_ok _ _ _ _ _ H7).
  assert (Hend7 : EE_EEPROM_END N <= size m7) by lia.
  destruct (main_write_settings N N_pos N_byte m7 (((((((tr ++ e1) ++ e2) ++ e3) ++ e4) ++ e5) ++ e6) ++ e7) fuel 65 [255; 0; 1] [0; 1; 1]
              Hend7 Hfuel Hv7 Hb7 eq_refl eq_refl
              ltac:(repeat constructor; unfold is_byte; lia))
    as (m8 & e8 & H8 & Hsz8 & Hfr8 & Hv8 & Hb8).
  rewrite (bind_ok _ _ _ _ _ H8).
  destruct (read_stores N N_pos EE_VOLUME m8
              ((((((((tr ++ e1) ++ e2) ++ e3) ++ e4) ++ e5) ++ e6) ++ e7) ++ e8) fuel 65 Hv8 Hfuel)
    as (e9 & H9 & _).
  destruct (read_block_stores N N_pos (EE_SETTINGS N) m8 fuel [0; 1; 1] Hb8 Hfuel
              3%nat 0%nat ((((((((tr ++ e1) ++ e2) ++ e3) ++ e4) ++ e5) ++ e6) ++ e7) ++ e8) eq_refl)
    as (e10 & H10 & _).
  exists m8, (e1 ++ e2 ++ e3 ++ e4 ++ e5 ++ e6 ++ e7 ++ e8). do 2 eexists.
  rewrite !app_assoc. split_and!.
  - reflexivity.
  - lia.
  - intros a Ha. rewrite Hfr8, Hfr7, Hfr6, Hfr5 by exact Ha.
    rewrite Hfr2, Hfr1; [reflexivity| |].
    + unfold EE_EEPROM_END, EE_SETTINGS, EE_VOLUME in *. lia.
    + rewrite Hg3. unfold EE_EEPROM_END, EE_SETTINGS, EE_VOLUME in *. lia.
  - exact H9.
  - exact H10.
Qed.

Lemma main_runs_witness :
  exists mem' evs w1 w2,
    main_program 8 8 (World (eeprom (blank 512)) [])
    = Ok (0x41, (0x0100, 0x01)) (World mem' ([] ++ evs)) /\
    size mem' = size (eeprom (blank 512)) /\
    (forall a, ~ (0 <= a < EE_EEPROM_END 8) -> cell mem' a = cell (eeprom (blank 512)) a) /\
    EEPROM_ReadWearLeveledByte 8 8 EE_VOLUME (World mem' ([] ++ evs)) = Ok 0x41 w1 /\
    EEPROM_ReadWearLeveledBlock 8 8 (EE_SETTINGS 8) 3 (World mem' ([] ++ evs))
    = Ok [0x00; 0x01; 0x01] w2.
Proof.
  apply (main_runs 8 (eeprom (blank 512)) [] 8).
  - lia.
  - vm_compute. discriminate.
  - vm_compute. lia.
Defined.



(** X13. The dump is faithful: on two media of bytes, EEPROM_Print of
    the same range prints the same text exactly when the two media
    hold the same values in every cell of the range. *)
Theorem print_is_faithful (begin end_ : Z) (mem mem' : list Z) (tr tr' : list event) :
  Forall is_byte mem -> Forall is_byte mem' ->
  0 <= begin -> begin <= end_ -> end_ <= size mem -> end_ <= size mem' ->
  exists out out' w w',
    EEPROM_Print begin end_ (World mem tr) = Ok out w /\
    EEPROM_Print begin end_ (World mem' tr') = Ok out' w' /\
    (out = out' <-> forall a, begin <= a < end_ -> cell mem a = cell mem' a).
Proof.
  intros Hm Hm' Hb Hbe He He'.
  destruct (print_loop_ok mem (Z.to_nat (end_ - begin)) begin tr Hb ltac:(lia))
    as (cells & Hrun & _).
  destruct (print_loop_ok mem' (Z.to_nat (end_ - begin)) begin tr' Hb ltac:(lia))
    as (cells' & Hrun' & _).
  pose proof (print_loop_inj mem mem' Hm Hm' (Z.to_nat (end_ - begin)) begin _ _ _ _ _ _ Hb
                ltac:(lia) ltac:(lia) Hrun Hrun') as Hinj.
  rewrite Z2Nat.id in Hinj by lia.
  exists (dashes ++ cells ++ dashes), (dashes ++ cells' ++ dashes). do 2 eexists.
  unfold EEPROM_Print.
  rewrite (bind_ok _ _ _ _ _ Hrun), (bind_ok _ _ _ _ _ Hrun').
  split_and!; [reflexivity|reflexivity|].
  replace (begin + (end_ - begin)) with end_ in Hinj by lia.
  rewrite <- Hinj. split.
  - intros H. apply app_inv_head, app_inv_tail in H. exact H.
  - intros ->. reflexivity.
Qed.

Lemma print_is_faithful_witness :
  exists out out' w w',
    EEPROM_Print 1 4 (World [0x40; 0x41; 0xFF; 0x0A] []) = Ok out w /\
    EEPROM_Print 1 4 (World [0x00; 0x41; 0xFF; 0x0A; 0x07] []) = Ok out' w' /\
    (out = out' <->
     forall a, 1 <= a < 4 ->
       cell [0x40; 0x41; 0xFF; 0x0A] a = cell [0x00; 0x41; 0xFF; 0x0A; 0x07] a).
Proof.
  apply (print_is_faithful 1 4 [0x40; 0x41; 0xFF; 0x0A] [0x00; 0x41; 0xFF; 0x0A; 0x07] [] []).
  - repeat constructor; unfold is_byte; lia.
  - repeat constructor; unfold is_byte; lia.
  - lia.
  - lia.
  - vm_compute. discriminate.
  - vm_compute. discriminate.
Defined.

(** X14. EEPROM_Print does not check its range against the array: a
    non-empty range that ends beyond the array is an access outside of
    it. *)
Theorem print_outside_faults (begin end_ : Z) (mem : list Z) (tr : list event) :
  0 <= begin -> begin < end_ -> size mem < end_ ->
  EEPROM_Print begin end_ (World mem tr) = Fault.
Proof.
  intros Hb Hbe He. unfold EEPROM_Print, bind.
  rewrite print_loop_fault; [reflexivity|exact Hb|lia|lia].
Qed.

Lemma print_outside_faults_witness :
  EEPROM_Print 0 65 (World (replicate 64 255) []) = Fault.
Proof.
  apply (print_outside_faults 0 65 (replicate 64 255) []).
  - lia.
  - lia.
  - vm_compute. reflexivity.
Defined.

(** X15. A group that was never initialized: on an erased medium
    (every cell of the group 0xFF) and for a factor from 1 to 255, the
    update and the read work as if the parameter had been initialized
    with 0xFF. Any sequence of updates with bytes returns, a read after
    it returns the last value of the sequence (0xFF after none), and
    no cell outside the group changes. *)
Theorem erased_group_usable (N param : Z) (mem : list Z) (tr : list event)
    (fuel : nat) (vs : list Z) :
  1 <= N <= 255 ->
  group_fits N mem param ->
  erased N mem param ->
  Forall is_byte vs ->
  (Z.to_nat N <= fuel)%nat ->
  exists mem' evs w',
    updates N fuel param vs (World mem tr) = Ok tt (World mem' (tr ++ evs)) /\
    size mem' = size mem /\
    (forall a, ~ (param <= a < param + 2 * N) -> cell mem' a = cell mem a) /\
    EEPROM_ReadWearLeveledByte N fuel param (World mem' (tr ++ evs))
    = Ok (List.last vs 255) w'.
Proof.
  intros [N_pos N_byte] Hfit He Hvs Hfuel.
  destruct (erased_is_run N N_pos mem param He) as [Hr Hd].
  destruct (erased_updates N N_pos N_byte param fuel Hfuel vs mem tr 255 Hfit
              (or_introl (ex_intro _ 0 (conj Hr Hd))) Hvs)
    as (mem' & evs & Hrun & Hsz & Hfr & Hst).
  assert (Hfit' : group_fits N mem' param)
    by (unfold group_fits in *; rewrite Hsz; exact Hfit).
  destruct Hst as [(m & Hr' & Hd')|Hs].
  - destruct (read_at N N_pos param mem' (tr ++ evs) fuel m Hfit' Hfuel
                (erased_run_boundary N N_byte mem' param m Hr')) as (evs' & Hread & _).
    exists mem', evs. eexists. split_and!; [exact Hrun|exact Hsz|exact Hfr|].
    rewrite Hread, Hd'. reflexivity.
  - destruct (read_stores N N_pos param mem' (tr ++ evs) fuel _ Hs Hfuel)
      as (evs' & Hread & _).
    exists mem', evs. eexists. split_and!; [exact Hrun|exact Hsz|exact Hfr|exact Hread].
Qed.

Lemma erased_group_usable_witness :
  exists mem' evs w',
    updates 4 4 0 [1; 2; 2; 3; 4; 5] (World (replicate 8 255) [])
    = Ok tt (World mem' ([] ++ evs)) /\
    size mem' = size (replicate 8 255) /\
    (forall a, ~ (0 <= a < 0 + 2 * 4) -> cell mem' a = cell (replicate 8 255) a) /\
    EEPROM_ReadWearLeveledByte 4 4 0 (World mem' ([] ++ evs))
    = Ok (List.last [1; 2; 2; 3; 4; 5] 255) w'.
Proof.
  apply (erased_group_usable 4 0 (replicate 8 255) [] 4 [1; 2; 2; 3; 4; 5]).
  - lia.
  - unfold group_fits, size. simpl. lia.
  - intros a Ha. assert (a = 0 \/ a = 1 \/ a = 2 \/ a = 3 \/ a = 4 \/ a = 5 \/ a = 6 \/ a = 7)
      as [->|[->|[->|[->|[->|[->|[->| ->]]]]]]] by lia; reflexivity.
  - repeat constructor; unfold is_byte; lia.
  - simpl. lia.
Defined.
